(** * libivee: guest construction and the call path of [src/libivee.c]

    A shallow embedding of the functions of [libivee.c] and the properties
    of the page-table builder, the boot CPU image, the loaders, the run loop
    and the public entry points. *)

From stdpp Require Import base functions list list_numbers gmap.
From Stdlib Require Import ZArith Lia.

Local Open Scope Z_scope.

(** ** Machine integers *)

(** [uint64_t] values are integers in [0, 2^64); arithmetic wraps. *)
Definition wrap64 (x : Z) : Z := x mod 2 ^ 64.

(** Host memory seen through a [uint64_t*]: the word at each index. *)
Abbreviation words := (Z → Z).

(** ** errno.h (Linux values) *)

Definition EIO : Z := 5.
Definition ENXIO : Z := 6.
Definition ENOMEM : Z := 12.
Definition EINVAL : Z := 22.
Definition ENOTSUP : Z := 95.

(** ** x86.h *)

(** Modelled from the spec: x86.h is not part of the sources at hand.  The
    page geometry is the 4 KiB one of §4.2 and PRESENT, RW and NX are the
    architectural bits 0, 1 and 63 of a page-table entry. *)
Definition X86_PAGE_SHIFT : Z := 12.
Definition X86_PAGE_SIZE : Z := 4096.
Definition X86_PTES_PER_PAGE : Z := 512.
Definition X86_PTE_PRESENT : Z := 1.
Definition X86_PTE_RW : Z := 2.
Definition X86_PTE_NX : Z := 2 ^ 63.

Record x86_segment := {
  seg_base : Z;
  seg_limit : Z;
  seg_selector : Z;
  seg_type : Z;
  seg_dpl : Z;
  seg_flags : Z
}.

(** The members of [struct x86_cpu_state] that [libivee.c] names. *)
Record x86_cpu_state := {
  rax : Z; rbx : Z; rcx : Z; rdx : Z; rsi : Z; rdi : Z; rbp : Z;
  r8 : Z; r9 : Z; r10 : Z; r11 : Z; r12 : Z; r13 : Z; r14 : Z; r15 : Z;
  rip : Z; rflags : Z;
  cs : x86_segment; ds : x86_segment; ss : x86_segment; es : x86_segment;
  fs : x86_segment; gs : x86_segment; tr : x86_segment; ldt : x86_segment;
  cr0 : Z; cr3 : Z; cr4 : Z; efer : Z
}.

(** ** libivee.h and memory.h: the constants the code uses by name only *)

Class headers := {
  IVEE_READ : Z;
  IVEE_WRITE : Z;
  IVEE_EXEC : Z;
  IVEE_PIO_EXIT_PORT : Z;
  IVEE_EXIT_IO : Z;
  X86_SEG_TYPE_CODE : Z;
  X86_SEG_TYPE_DATA : Z;
  X86_SEG_TYPE_ACC : Z;
  X86_SEG_TYPE_TSS32 : Z;
  X86_SEG_TYPE_LDT : Z;
  X86_SEG_S : Z;
  X86_SEG_P : Z;
  X86_SEG_G : Z;
  X86_SEG_L : Z;
  X86_SEG_DB : Z
}.

(** ** memory.h: regions and the memory map *)

Record ivee_guest_memory_region := {
  first_gfn : Z;
  last_gfn : Z;
  hva : Z;
  prot : Z
}.

(** The region list of [struct ivee_memory_map], in list order. *)
Abbreviation ivee_memory_map := (list ivee_guest_memory_region).

(** ** The page-table geometry of libivee.c *)

Definition IVEE_GUEST_MEMORY_SIZE : Z := 0x40000000.
Definition IVEE_GUEST_PAGES_COUNT : Z := Z.shiftr IVEE_GUEST_MEMORY_SIZE X86_PAGE_SHIFT.
Definition IVEE_PAGE_TABLE_SIZE : Z := X86_PAGE_SIZE * 515.
Definition IVEE_PML4_BASE_GPA : Z := IVEE_GUEST_MEMORY_SIZE - IVEE_PAGE_TABLE_SIZE.
Definition IVEE_PDPE_BASE_GPA : Z := IVEE_PML4_BASE_GPA + X86_PAGE_SIZE.
Definition IVEE_PDE_BASE_GPA : Z := IVEE_PDPE_BASE_GPA + X86_PAGE_SIZE.
Definition IVEE_PTE_BASE_GPA : Z := IVEE_PDE_BASE_GPA + X86_PAGE_SIZE.

(** [X86_PAGE_SIZE / sizeof(uint64_t)]: the stride of [pentry] between pages. *)
Definition words_per_page : Z := X86_PAGE_SIZE / 8.

(** Word offsets of the tables from [gpt_mr->hva]. *)
Definition pml4_off : Z := 0.
Definition pdpe_off : Z := pml4_off + words_per_page.
Definition pde_off : Z := pdpe_off + words_per_page.
Definition pte_pages_base : Z := pde_off + X86_PTES_PER_PAGE.

Section PageTable.
Context `{headers}.

(** [memset(base, 0, count * sizeof(uint64_t))] *)
Definition memset0 (base count : Z) (m : words) : words :=
  λ j, if bool_decide (base ≤ j < base + count) then 0 else m j.

(** The entry of the directory loop for index [i]. *)
Definition pde_entry (i : Z) : Z :=
  Z.lor (Z.lor (IVEE_PTE_BASE_GPA + X86_PAGE_SIZE * i) X86_PTE_PRESENT) X86_PTE_RW.

(** [for (i = 0; i < X86_PTES_PER_PAGE; ++i, ++pentry) *pentry = ...] *)
Definition write_pdes (m : words) : words :=
  foldl (λ m i, <[pde_off + i := pde_entry i]> m) m (seqZ 0 X86_PTES_PER_PAGE).

(** [&pte_pages_base[((gfn >> 9) & 0x1FF) * X86_PTES_PER_PAGE][gfn & 0x1FF]],
    as a word offset from [gpt_mr->hva]. *)
Definition pte_slot (gfn : Z) : Z :=
  pte_pages_base
  + Z.land (Z.shiftr gfn 9) 0x1FF * X86_PTES_PER_PAGE
  + Z.land gfn 0x1FF.

(** The value stored for frame [gfn] of a region with protection [p]. *)
Definition pte_entry (gfn p : Z) : Z :=
  Z.lor
    (Z.lor
       (Z.lor (wrap64 (Z.shiftl gfn X86_PAGE_SHIFT))
              (if bool_decide (Z.land p IVEE_WRITE ≠ 0) then X86_PTE_RW else 0))
       (if bool_decide (Z.land p IVEE_EXEC ≠ 0) then 0 else X86_PTE_NX))
    X86_PTE_PRESENT.

(** [for (gfn = mr->first_gfn; gfn <= mr->last_gfn; ++gfn)].  Frame numbers
    are addresses shifted right by 12, so [last_gfn + 1] does not wrap and
    the loop visits [first_gfn], ..., [last_gfn] once each. *)
Definition map_region_frames (m : words) (mr : ivee_guest_memory_region) : words :=
  foldl (λ m gfn, <[pte_slot gfn := pte_entry gfn (prot mr)]> m) m
        (seqZ (first_gfn mr) (last_gfn mr + 1 - first_gfn mr)).

(** The writes of [init_guest_page_table] through [pentry], from the first
    store to the end of the [LIST_FOREACH]. *)
Definition write_page_table (regions : ivee_memory_map) (m : words) : words :=
  let m := <[pml4_off := Z.lor IVEE_PDPE_BASE_GPA X86_PTE_PRESENT]> m in
  let m := <[pdpe_off := Z.lor IVEE_PDE_BASE_GPA X86_PTE_PRESENT]> m in
  let m := write_pdes m in
  let m := memset0 pte_pages_base IVEE_GUEST_PAGES_COUNT m in
  foldl map_region_frames m regions.
End PageTable.

(** ** The host process: mappings, allocation, errno *)

Record host := {
  mappings : gmap Z words;   (* live host mappings, by base address *)
  next_hva : Z;              (* where the next mapping is placed *)
  grants : list bool;        (* answers to the coming allocation requests;
                                past the end of the list every request is granted *)
  errno : Z;
  live_sessions : nat;       (* blocks handed out by [ivee_zalloc], not yet freed *)
  live_vms : nat             (* VM handles created, not yet released *)
}.

Definition set_errno (e : Z) (h : host) : host :=
  {| mappings := mappings h; next_hva := next_hva h; grants := grants h;
     errno := e; live_sessions := live_sessions h; live_vms := live_vms h |}.

Definition set_mappings (m : gmap Z words) (h : host) : host :=
  {| mappings := m; next_hva := next_hva h; grants := grants h;
     errno := errno h; live_sessions := live_sessions h; live_vms := live_vms h |}.

(** The next answer of the allocator and the answers left after it. *)
Definition next_grant (h : host) : bool * host :=
  match grants h with
  | [] => (true, h)
  | g :: rest =>
      (g, {| mappings := mappings h; next_hva := next_hva h; grants := rest;
             errno := errno h; live_sessions := live_sessions h;
             live_vms := live_vms h |})
  end.

(** The contents of the mapping at [a], and their replacement; a store
    changes a live mapping and creates none. *)
Definition host_load (a : Z) (h : host) : words :=
  default (λ _, 0) (mappings h !! a).

Definition host_store (a : Z) (w : words) (h : host) : host :=
  set_mappings (alter (λ _, w) a (mappings h)) h.

(** Modelled from the spec: the platform shim (platform.h) is missing.  A
    request for [size] bytes is refused for an empty range and when the host
    has no memory ([ENOMEM]); otherwise a fresh mapping holding [image] is
    placed at [next_hva]. *)
Definition host_mmap (size : Z) (image : words) (h : host) : option Z * host :=
  if size <=? 0 then (None, set_errno EINVAL h)
  else
    let '(granted, h) := next_grant h in
    if granted then
      (Some (next_hva h),
       {| mappings := <[next_hva h := image]> (mappings h);
          next_hva := next_hva h + size; grants := grants h; errno := errno h;
          live_sessions := live_sessions h; live_vms := live_vms h |})
    else (None, set_errno ENOMEM h).

(** Modelled from the spec: the platform shim is missing.  Unmapping ends
    the mapping based at [a]. *)
Definition host_munmap (a : Z) (h : host) : host :=
  set_mappings (delete a (mappings h)) h.

(** ** memory.h: the operations on the memory map *)

Definition page_round_up (size : Z) : Z :=
  (size + X86_PAGE_SIZE - 1) / X86_PAGE_SIZE * X86_PAGE_SIZE.

Definition overlaps (first last : Z) (r : ivee_guest_memory_region) : bool :=
  (first <=? last_gfn r) && (first_gfn r <=? last).

Fixpoint insert_sorted (r : ivee_guest_memory_region) (map : ivee_memory_map)
  : ivee_memory_map :=
  match map with
  | [] => [r]
  | x :: rest =>
      if first_gfn r <? first_gfn x then r :: x :: rest
      else x :: insert_sorted r rest
  end.

(** Modelled from the spec: memory.c is missing; this is [map] of §4.1.  The
    size is rounded up to a page, a misaligned base or an overlap with a
    region of the map is refused, a host mapping is obtained (the bytes of
    the file behind [fd], or zero-filled when [fd] is [None], the
    descriptor -1) and the region goes to its sorted place.  The result is
    the new region, or [None] for the NULL pointer. *)
Definition ivee_map_host_memory (map : ivee_memory_map) (gpa size : Z)
    (fd : option words) (ro : bool) (prot : Z) (h : host)
  : option ivee_guest_memory_region * ivee_memory_map * host :=
  let size := page_round_up size in
  if negb (gpa mod X86_PAGE_SIZE =? 0) then (None, map, h)
  else
    let first := Z.shiftr gpa X86_PAGE_SHIFT in
    let last := Z.shiftr (gpa + size - 1) X86_PAGE_SHIFT in
    if existsb (overlaps first last) map then (None, map, h)
    else
      match host_mmap size (default (λ _, 0) fd) h with
      | (None, h) => (None, map, h)
      | (Some a, h) =>
          let r := {| first_gfn := first; last_gfn := last; hva := a; prot := prot |} in
          (Some r, insert_sorted r map, h)
      end.

(** Modelled from the spec: [free] of §4.1 releases every region's host
    mapping and empties the list. *)
Definition ivee_free_memory_map (map : ivee_memory_map) (h : host)
  : ivee_memory_map * host :=
  ([], foldl (λ h r, host_munmap (hva r) h) h map).

(** ** kvm.h: exit records and the driver *)

(** Modelled from the spec: the members of the exit record of §6; the code
    reads [exit_reason], [io] and [port]. *)
Record ivee_pio_exit := {
  port : Z;
  pio_direction : Z;
  pio_size : Z;
  pio_data : Z
}.

Record ivee_exit := {
  exit_reason : Z;
  io : ivee_pio_exit
}.

(** The hypervisor driver behind kvm.h and the status of
    [ivee_init_memory_map]: collaborators whose code is not at hand.  A VM
    pointer is [None] when it is NULL. *)
Class kvm_driver := {
  ivee_kvm_vm : Type;
  ivee_init_kvm : Z;
  kvm_new_vm : option ivee_kvm_vm;
  ivee_init_memory_map : Z;
  ivee_set_kvm_memory_map :
    option ivee_kvm_vm → ivee_memory_map → Z * option ivee_kvm_vm;
  ivee_kvm_load_vcpu_state :
    option ivee_kvm_vm → x86_cpu_state → Z * option ivee_kvm_vm;
  ivee_kvm_store_vcpu_state :
    option ivee_kvm_vm → x86_cpu_state → Z * x86_cpu_state;
  ivee_kvm_run : option ivee_kvm_vm → Z * ivee_exit * option ivee_kvm_vm
}.

(** ** libivee.h: the caller's register block and the format selector *)

Record ivee_arch_state := {
  a_rax : Z; a_rbx : Z; a_rcx : Z; a_rdx : Z; a_rsi : Z; a_rdi : Z; a_rbp : Z;
  a_r8 : Z; a_r9 : Z; a_r10 : Z; a_r11 : Z; a_r12 : Z; a_r13 : Z; a_r14 : Z;
  a_r15 : Z
}.

(** The three enumerators, and any other value of the C enum type. *)
Inductive ivee_executable_format_t :=
  | IVEE_EXEC_BIN
  | IVEE_EXEC_ELF64
  | IVEE_EXEC_ANY
  | IVEE_EXEC_other (n : Z).

(** ** The file behind a path: what the system and libelf answer *)

(** A system call yields a value, or fails and sets errno. *)
Inductive sys (A : Type) :=
  | Ok (a : A)
  | Fail (e : Z).
Arguments Ok {A} a.
Arguments Fail {A} e.

Record GElf_Ehdr := {
  e_type : Z;
  e_machine : Z;
  e_entry : Z;
  e_phnum : Z
}.

Record GElf_Phdr := {
  p_type : Z;
  p_flags : Z;
  p_offset : Z;
  p_vaddr : Z;
  p_filesz : Z;
  p_memsz : Z
}.

Record file := {
  f_access : sys unit;              (* access(file, R_OK | X_OK) *)
  f_stat : sys Z;                   (* stat: st_size *)
  f_open : sys Z;                   (* open(file, O_RDONLY): the descriptor *)
  f_image : words;                  (* the bytes a mapping of the file shows *)
  f_pread : Z → Z → sys Z;          (* pread of [count] bytes at [offset]: bytes transferred *)
  f_fill : Z → Z → words → words;   (* the buffer after [n] bytes from [offset] arrived *)
  elf_version : Z;                  (* elf_version(EV_CURRENT) *)
  elf_begin : bool;                 (* elf_begin gave a handle *)
  elf_kind : Z;
  gelf_getehdr : option GElf_Ehdr;
  gelf_getclass : Z;
  gelf_getphdr : Z → option GElf_Phdr;
  elf_errno : Z                     (* what elf_errno() reports after the failed step *)
}.

(** elf.h and libelf.h *)
Definition EV_NONE : Z := 0.
Definition ELF_K_ELF : Z := 3.
Definition ELFCLASS64 : Z := 2.
Definition ET_EXEC : Z := 2.
Definition ET_DYN : Z := 3.
Definition EM_X86_64 : Z := 62.
Definition PT_LOAD : Z := 1.
Definition PF_X : Z := 1.
Definition PF_W : Z := 2.
Definition PF_R : Z := 4.

(** ** libivee.c *)

Section Libivee.
Context `{headers} `{kvm_driver}.

Record ivee := {
  vm : option ivee_kvm_vm;
  memory_map : ivee_memory_map;
  x86_cpu : x86_cpu_state;
  entry_addr : Z;
  gpt_mr : option ivee_guest_memory_region;
  should_terminate : bool
}.

Definition set_vm (v : option ivee_kvm_vm) (s : ivee) : ivee :=
  {| vm := v; memory_map := memory_map s; x86_cpu := x86_cpu s;
     entry_addr := entry_addr s; gpt_mr := gpt_mr s;
     should_terminate := should_terminate s |}.

Definition set_memory_map (m : ivee_memory_map) (s : ivee) : ivee :=
  {| vm := vm s; memory_map := m; x86_cpu := x86_cpu s;
     entry_addr := entry_addr s; gpt_mr := gpt_mr s;
     should_terminate := should_terminate s |}.

Definition set_x86_cpu (c : x86_cpu_state) (s : ivee) : ivee :=
  {| vm := vm s; memory_map := memory_map s; x86_cpu := c;
     entry_addr := entry_addr s; gpt_mr := gpt_mr s;
     should_terminate := should_terminate s |}.

Definition set_entry_addr (a : Z) (s : ivee) : ivee :=
  {| vm := vm s; memory_map := memory_map s; x86_cpu := x86_cpu s;
     entry_addr := a; gpt_mr := gpt_mr s;
     should_terminate := should_terminate s |}.

Definition set_gpt_mr (r : option ivee_guest_memory_region) (s : ivee) : ivee :=
  {| vm := vm s; memory_map := memory_map s; x86_cpu := x86_cpu s;
     entry_addr := entry_addr s; gpt_mr := r;
     should_terminate := should_terminate s |}.

Definition set_should_terminate (b : bool) (s : ivee) : ivee :=
  {| vm := vm s; memory_map := memory_map s; x86_cpu := x86_cpu s;
     entry_addr := entry_addr s; gpt_mr := gpt_mr s;
     should_terminate := b |}.

Definition zero_segment : x86_segment :=
  {| seg_base := 0; seg_limit := 0; seg_selector := 0; seg_type := 0;
     seg_dpl := 0; seg_flags := 0 |}.

(** A register image of all-zero bytes. *)
Definition zero_cpu : x86_cpu_state :=
  {| rax := 0; rbx := 0; rcx := 0; rdx := 0; rsi := 0; rdi := 0; rbp := 0;
     r8 := 0; r9 := 0; r10 := 0; r11 := 0; r12 := 0; r13 := 0; r14 := 0;
     r15 := 0; rip := 0; rflags := 0;
     cs := zero_segment; ds := zero_segment; ss := zero_segment;
     es := zero_segment; fs := zero_segment; gs := zero_segment;
     tr := zero_segment; ldt := zero_segment;
     cr0 := 0; cr3 := 0; cr4 := 0; efer := 0 |}.

(** What [ivee_zalloc(sizeof(struct ivee))] hands out: all bytes zero. *)
Definition zero_ivee : ivee :=
  {| vm := None; memory_map := []; x86_cpu := zero_cpu; entry_addr := 0;
     gpt_mr := None; should_terminate := false |}.

(** Modelled from the spec: the platform shim (platform.h) is missing.
    [ivee_zalloc] yields a zeroed block, or NULL when the host has no
    memory. *)
Definition ivee_zalloc (h : host) : option ivee * host :=
  let '(granted, h) := next_grant h in
  if granted then
    (Some zero_ivee,
     {| mappings := mappings h; next_hva := next_hva h; grants := grants h;
        errno := errno h; live_sessions := S (live_sessions h);
        live_vms := live_vms h |})
  else (None, set_errno ENOMEM h).

(** Modelled from the spec: the platform shim is missing.  [ivee_free]
    gives a block back to the host. *)
Definition ivee_free (h : host) : host :=
  {| mappings := mappings h; next_hva := next_hva h; grants := grants h;
     errno := errno h; live_sessions := Nat.pred (live_sessions h);
     live_vms := live_vms h |}.

(** Modelled from the spec: kvm.c is missing.  Creating a VM yields the
    driver's handle, which is then open, or NULL. *)
Definition ivee_create_kvm_vm (h : host) : option ivee_kvm_vm * host :=
  match kvm_new_vm with
  | Some v =>
      (Some v,
       {| mappings := mappings h; next_hva := next_hva h; grants := grants h;
          errno := errno h; live_sessions := live_sessions h;
          live_vms := S (live_vms h) |})
  | None => (None, h)
  end.

(** Modelled from the spec: kvm.c is missing.  Releasing a handle closes
    it (and with it the VM's slots); releasing NULL does nothing.  Host
    mappings belong to the memory map and are not touched. *)
Definition ivee_release_kvm_vm (v : option ivee_kvm_vm) (h : host) : host :=
  match v with
  | Some _ =>
      {| mappings := mappings h; next_hva := next_hva h; grants := grants h;
         errno := errno h; live_sessions := live_sessions h;
         live_vms := Nat.pred (live_vms h) |}
  | None => h
  end.

Definition ivee_list_platform_capabilities : Z := 0.

(** [ivee_destroy]: a null session is left alone; otherwise the VM handle
    is released and the session block freed. *)
Definition ivee_destroy (ivee_p : option ivee) (h : host) : host :=
  match ivee_p with
  | None => h
  | Some s => ivee_free (ivee_release_kvm_vm (vm s) h)
  end.

(** [ivee_create].  [out_ivee_ptr] is [None] for a null pointer and
    otherwise holds what the pointed-to variable contains; the result has
    the status, the variable afterwards and the host. *)
Definition ivee_create (caps : Z) (out_ivee_ptr : option (option ivee)) (h : host)
  : Z * option (option ivee) * host :=
  match out_ivee_ptr with
  | None => (- EINVAL, None, h)
  | Some out =>
      if bool_decide
           (Z.land (wrap64 caps)
                   (Z.lxor (Z.ones 64) ivee_list_platform_capabilities) ≠ 0)
      then (- ENOTSUP, Some out, h)
      else
        match ivee_zalloc h with
        | (None, h) => (- ENOMEM, Some out, h)
        | (Some s, h) =>
            let res := ivee_init_kvm in
            if bool_decide (res ≠ 0) then (res, Some out, ivee_destroy (Some s) h)
            else
              let '(v, h) := ivee_create_kvm_vm h in
              let s := set_vm v s in
              match v with
              | None => (- ENXIO, Some out, ivee_destroy (Some s) h)
              | Some _ =>
                  let res := ivee_init_memory_map in
                  let s := set_memory_map [] s in
                  if bool_decide (res ≠ 0)
                  then (res, Some out, ivee_destroy (Some s) h)
                  else (0, Some (Some s), h)
              end
        end
  end.

(** [init_guest_page_table] *)
Definition init_guest_page_table (s : ivee) (h : host) : Z * ivee * host :=
  let '(mr, map, h) :=
    ivee_map_host_memory (memory_map s) IVEE_PML4_BASE_GPA IVEE_PAGE_TABLE_SIZE
                         None false (Z.lor IVEE_READ IVEE_WRITE) h in
  let s := set_gpt_mr mr (set_memory_map map s) in
  match mr with
  | None => (- ENOMEM, s, h)
  | Some r =>
      (0, s,
       host_store (hva r)
                  (write_page_table (memory_map s) (host_load (hva r) h)) h)
  end.

(** [reset_x86_segment]; the arguments arrive as [uint16_t], [uint32_t],
    [uint8_t] and [uint8_t]. *)
Definition reset_x86_segment (selector limit type flags : Z) : x86_segment :=
  {| seg_base := 0; seg_limit := limit mod 2 ^ 32;
     seg_selector := selector mod 2 ^ 16;
     seg_type := type mod 2 ^ 8; seg_dpl := 0; seg_flags := flags mod 2 ^ 8 |}.

(** [init_x86_cpu]: the image is zeroed first, so nothing of the old one
    survives. *)
Definition init_x86_cpu (x86_cpu : x86_cpu_state) : x86_cpu_state :=
  let code := reset_x86_segment 0x8 0xFFFFFFFF
                (Z.lor X86_SEG_TYPE_CODE X86_SEG_TYPE_ACC)
                (Z.lor (Z.lor (Z.lor X86_SEG_S X86_SEG_P) X86_SEG_G) X86_SEG_L) in
  let data := reset_x86_segment 0x10 0xFFFFFFFF
                (Z.lor X86_SEG_TYPE_DATA X86_SEG_TYPE_ACC)
                (Z.lor (Z.lor (Z.lor X86_SEG_S X86_SEG_P) X86_SEG_G) X86_SEG_DB) in
  let z := zero_cpu in
  {| rax := rax z; rbx := rbx z; rcx := rcx z; rdx := rdx z; rsi := rsi z;
     rdi := rdi z; rbp := rbp z; r8 := r8 z; r9 := r9 z; r10 := r10 z;
     r11 := r11 z; r12 := r12 z; r13 := r13 z; r14 := r14 z; r15 := r15 z;
     rip := rip z;
     rflags := 0x2;
     cs := code; ds := data; ss := data; es := data; fs := data; gs := data;
     tr := reset_x86_segment 0 0 X86_SEG_TYPE_TSS32 X86_SEG_P;
     ldt := reset_x86_segment 0 0 X86_SEG_TYPE_LDT X86_SEG_P;
     cr0 := 0x80010001;
     cr3 := IVEE_PML4_BASE_GPA;
     cr4 := 0x20;
     efer := 0x500 |}.

(** [stat], [open] and [pread] as the code sees them: the value returned
    and the host afterwards (errno is written on failure only). *)
Definition sys_stat (f : file) (h : host) : Z * Z * host :=
  match f_stat f with
  | Ok size => (0, size, h)
  | Fail e => (-1, 0, set_errno e h)
  end.

Definition sys_open (f : file) (h : host) : Z * host :=
  match f_open f with
  | Ok fd => (fd, h)
  | Fail e => (-1, set_errno e h)
  end.

(** [pread(fd, buf, count, offset)] with [buf] the mapping at [buf]. *)
Definition sys_pread (f : file) (buf count offset : Z) (h : host) : Z * host :=
  match f_pread f count offset with
  | Ok n => (n, host_store buf (f_fill f offset n (host_load buf h)) h)
  | Fail e => (-1, set_errno e h)
  end.

(** [load_bin] *)
Definition load_bin (s : ivee) (f : file) (h : host) : Z * ivee * host :=
  let '(res, st_size, h) := sys_stat f h in
  if bool_decide (res ≠ 0) then (res, s, h)
  else
    let size := wrap64 st_size in
    if size =? 0 then (- EINVAL, s, h)
    else
      let '(fd, h) := sys_open f h in
      if fd <? 0 then (fd, s, h)
      else
        let s := set_entry_addr 0x400000 s in
        let '(image_mr, map, h) :=
          ivee_map_host_memory (memory_map s) (entry_addr s) size
                               (Some (f_image f)) true
                               (Z.lor IVEE_READ IVEE_EXEC) h in
        let s := set_memory_map map s in
        match image_mr with
        | None => (- ENOMEM, s, h)
        | Some _ => (0, s, h)
        end.

(** How the program-header loop of [load_elf64] is left: past its last
    iteration, or by [goto error_out] with the value [res] has then. *)
Inductive loop_exit :=
  | loop_done
  | error_out (res : Z).

Definition segment_prot (p_flags : Z) : Z :=
  Z.lor
    (Z.lor (if bool_decide (Z.land p_flags PF_X ≠ 0) then IVEE_EXEC else 0)
           (if bool_decide (Z.land p_flags PF_R ≠ 0) then IVEE_READ else 0))
    (if bool_decide (Z.land p_flags PF_W ≠ 0) then IVEE_WRITE else 0).

(** [for (i = 0; i < ehdr.e_phnum; ++i)]: [n] iterations are left, [i] is
    the index and [res] the status variable. *)
Fixpoint load_segments (f : file) (n : nat) (i res : Z) (s : ivee) (h : host)
  : loop_exit * ivee * host :=
  match n with
  | O => (loop_done, s, h)
  | S n =>
      match gelf_getphdr f i with
      | None => (error_out (- elf_errno f), s, h)
      | Some phdr =>
          if bool_decide (p_type phdr ≠ PT_LOAD)
          then load_segments f n (i + 1) res s h
          else
            let '(segment_mr, map, h) :=
              ivee_map_host_memory (memory_map s) (p_vaddr phdr) (p_memsz phdr)
                                   None false (segment_prot (p_flags phdr)) h in
            let s := set_memory_map map s in
            match segment_mr with
            | None => (error_out res, s, h)
            | Some mr =>
                let '(nbytes, h) :=
                  sys_pread f (hva mr) (p_filesz phdr) (p_offset phdr) h in
                if bool_decide (wrap64 nbytes ≠ p_filesz phdr)
                then (error_out (- errno h), s, h)
                else load_segments f n (i + 1) res s h
            end
      end
  end.

(** [load_elf64] *)
Definition load_elf64 (s : ivee) (f : file) (h : host) : Z * ivee * host :=
  let res := 0 in
  if elf_version f =? EV_NONE then (- ENOTSUP, s, h)
  else
    let '(fd, h) := sys_open f h in
    if fd <? 0 then (fd, s, h)
    else if negb (elf_begin f) then (- elf_errno f, s, h)
    else if bool_decide (elf_kind f ≠ ELF_K_ELF) then (- elf_errno f, s, h)
    else
      match gelf_getehdr f with
      | None => (- elf_errno f, s, h)
      | Some ehdr =>
          if bool_decide (gelf_getclass f ≠ ELFCLASS64) then (- ENOTSUP, s, h)
          else if bool_decide (e_type ehdr ≠ ET_EXEC) && bool_decide (e_type ehdr ≠ ET_DYN)
          then (- ENOTSUP, s, h)
          else if bool_decide (e_machine ehdr ≠ EM_X86_64) then (- ENOTSUP, s, h)
          else
            match load_segments f (Z.to_nat (e_phnum ehdr)) 0 res s h with
            | (error_out res, s, h) => (res, s, h)
            | (loop_done, s, h) => (0, set_entry_addr (e_entry ehdr) s, h)
            end
      end.

(** [load_any] *)
Definition load_any (s : ivee) (f : file) (h : host) : Z * ivee * host :=
  let '(res, s, h) := load_elf64 s f h in
  if res =? 0 then (res, s, h)
  else load_bin s f h.

(** The [error_out] label of [ivee_load_executable]. *)
Definition drop_memory_map (res : Z) (s : ivee) (h : host) : Z * option ivee * host :=
  let '(map, h) := ivee_free_memory_map (memory_map s) h in
  (res, Some (set_memory_map map s), h).

(** [ivee_load_executable]; a null session or path is [None]. *)
Definition ivee_load_executable (ivee_p : option ivee) (file_p : option file)
    (format : ivee_executable_format_t) (h : host) : Z * option ivee * host :=
  match ivee_p with
  | None => (- EINVAL, None, h)
  | Some s =>
      match file_p with
      | None => (- EINVAL, Some s, h)
      | Some f =>
          match f_access f with
          | Fail e => (- EINVAL, Some s, set_errno e h)
          | Ok _ =>
              let '(res, s, h) :=
                match format with
                | IVEE_EXEC_BIN => load_bin s f h
                | IVEE_EXEC_ELF64 => load_elf64 s f h
                | IVEE_EXEC_ANY => load_any s f h
                | IVEE_EXEC_other _ => (- ENOTSUP, s, h)
                end in
              if bool_decide (res ≠ 0) then drop_memory_map res s h
              else
                let '(res, s, h) := init_guest_page_table s h in
                if bool_decide (res ≠ 0) then drop_memory_map res s h
                else
                  let '(res, v) := ivee_set_kvm_memory_map (vm s) (memory_map s) in
                  let s := set_vm v s in
                  if bool_decide (res ≠ 0) then drop_memory_map res s h
                  else (0, Some (set_x86_cpu (init_x86_cpu (x86_cpu s)) s), h)
          end
      end
  end.

(** [load_vcpu_state] *)
Definition load_vcpu_state (s : ivee) (state : ivee_arch_state) : Z * ivee :=
  let c := x86_cpu s in
  let c :=
    {| rax := a_rax state; rbx := a_rbx state; rcx := a_rcx state;
       rdx := a_rdx state; rsi := a_rsi state; rdi := a_rdi state;
       rbp := a_rbp state; r8 := a_r8 state; r9 := a_r9 state;
       r10 := a_r10 state; r11 := a_r11 state; r12 := a_r12 state;
       r13 := a_r13 state; r14 := a_r14 state; r15 := a_r15 state;
       rip := entry_addr s;
       rflags := rflags c;
       cs := cs c; ds := ds c; ss := ss c; es := es c; fs := fs c; gs := gs c;
       tr := tr c; ldt := ldt c;
       cr0 := cr0 c; cr3 := cr3 c; cr4 := cr4 c; efer := efer c |} in
  let '(res, v) := ivee_kvm_load_vcpu_state (vm s) c in
  (res, set_vm v (set_x86_cpu c s)).

(** [store_vcpu_state]: the driver fills the session's image; on success
    the members named below are copied to the caller's block. *)
Definition store_vcpu_state (s : ivee) (state : ivee_arch_state)
  : Z * ivee * ivee_arch_state :=
  let '(res, c) := ivee_kvm_store_vcpu_state (vm s) (x86_cpu s) in
  let s := set_x86_cpu c s in
  if bool_decide (res ≠ 0) then (res, s, state)
  else
    (0, s,
     {| a_rax := rax c; a_rbx := rbx c; a_rcx := rcx c; a_rdx := rdx c;
        a_rsi := rsi c; a_rdi := rdi c;
        a_rbp := a_rbp state;
        a_r8 := r8 c; a_r9 := r9 c; a_r10 := r10 c; a_r11 := r11 c;
        a_r12 := r12 c; a_r13 := r13 c; a_r14 := r14 c; a_r15 := r15 c |}).

(** [handle_pio] *)
Definition handle_pio (s : ivee) (pio : ivee_pio_exit) : Z * ivee :=
  if port pio =? IVEE_PIO_EXIT_PORT then (0, set_should_terminate true s)
  else (- ENOTSUP, s).

(** The [switch (exit.exit_reason)] of the run loop. *)
Definition dispatch_exit (s : ivee) (exit : ivee_exit) : Z * ivee :=
  if exit_reason exit =? IVEE_EXIT_IO then handle_pio s (io exit)
  else (- ENOTSUP, s).

(** The [do ... while (!ivee->should_terminate)] of [ivee_call]: [inl res]
    when the body returns [res], [inr s] when the loop is left.  [fuel]
    bounds the number of iterations; [None] means it ran out. *)
Fixpoint run_loop (fuel : nat) (s : ivee) : option (Z * ivee + ivee) :=
  match fuel with
  | O => None
  | S fuel =>
      let '(res, exit, v) := ivee_kvm_run (vm s) in
      let s := set_vm v s in
      if bool_decide (res ≠ 0) then Some (inl (res, s))
      else
        let '(res, s) := dispatch_exit s exit in
        if bool_decide (res ≠ 0) then Some (inl (res, s))
        else if negb (should_terminate s) then run_loop fuel s
        else Some (inr s)
  end.

(** [ivee_call]; a null session or register block is [None]. *)
Definition ivee_call (fuel : nat) (ivee_p : option ivee) (state : option ivee_arch_state)
  : option (Z * option ivee * option ivee_arch_state) :=
  match ivee_p, state with
  | Some s, Some st =>
      let '(res, s) := load_vcpu_state s st in
      if bool_decide (res ≠ 0) then Some (res, Some s, Some st)
      else
        let s := set_should_terminate false s in
        match run_loop fuel s with
        | None => None
        | Some (inl (res, s)) => Some (res, Some s, Some st)
        | Some (inr s) =>
            let '(res, s, st) := store_vcpu_state s st in
            Some (res, Some s, Some st)
        end
  | _, _ => Some (- EINVAL, ivee_p, state)
  end.
End Libivee.

(** ** The invariants of §3 that the page-table builder relies on *)

Definition region_in_window (r : ivee_guest_memory_region) : bool :=
  (0 <=? first_gfn r) && (last_gfn r <? IVEE_GUEST_PAGES_COUNT).

Fixpoint regions_disjoint (map : ivee_memory_map) : bool :=
  match map with
  | [] => true
  | r :: rest =>
      forallb (λ x, negb (overlaps (first_gfn r) (last_gfn r) x)) rest
      && regions_disjoint rest
  end.

(** Every region lies in the low 1 GiB and no two regions share a frame. *)
Definition memory_map_ok (map : ivee_memory_map) : bool :=
  forallb region_in_window map && regions_disjoint map.


(** The frames the [LIST_FOREACH] visits, in order, each with the
    protection of its region. *)
Definition frames_of (map : ivee_memory_map) : list (Z * Z) :=
  map ≫= λ mr, (λ gfn, (gfn, prot mr)) <$> seqZ (first_gfn mr) (last_gfn mr + 1 - first_gfn mr).


(** ** Vocabulary of the call path *)

(** The caller's block holds the registers of image [c] that
    [store_vcpu_state] copies. *)
Definition gprs_stored (c : x86_cpu_state) (st : ivee_arch_state) : Prop :=
  a_rax st = rax c ∧ a_rbx st = rbx c ∧ a_rcx st = rcx c ∧ a_rdx st = rdx c
  ∧ a_rsi st = rsi c ∧ a_rdi st = rdi c
  ∧ a_r8 st = r8 c ∧ a_r9 st = r9 c ∧ a_r10 st = r10 c ∧ a_r11 st = r11 c
  ∧ a_r12 st = r12 c ∧ a_r13 st = r13 c ∧ a_r14 st = r14 c ∧ a_r15 st = r15 c.

(** The exit is the guest's request to end the call: a port access on
    [IVEE_PIO_EXIT_PORT]. *)
Definition exit_request `{headers} (e : ivee_exit) : Prop :=
  exit_reason e = IVEE_EXIT_IO ∧ port (io e) = IVEE_PIO_EXIT_PORT.

(** ** Vocabulary of the resources *)

(** The host mapping based at [a] is live. *)
Definition live (a : Z) (h : host) : Prop := is_Some (mappings h !! a).

(** What holds of session [s] and host [h] at every point of a load that
    began in [s0] and [h0]: the CPU image and the termination flag are
    untouched, and every live mapping was live at the start or backs a
    region of the memory map. *)
Definition load_inv `{kvm_driver} (s0 : ivee) (h0 : host) (s : ivee) (h : host) : Prop :=
  x86_cpu s = x86_cpu s0
  ∧ should_terminate s = should_terminate s0
  ∧ ∀ a, live a h → live a h0 ∨ ∃ r, r ∈ memory_map s ∧ hva r = a.

(** ** Vocabulary of the further properties *)


(** Image [c] holds the fifteen registers of the caller's block. *)
Definition gprs_loaded (c : x86_cpu_state) (st : ivee_arch_state) : Prop :=
  rax c = a_rax st ∧ rbx c = a_rbx st ∧ rcx c = a_rcx st ∧ rdx c = a_rdx st
  ∧ rsi c = a_rsi st ∧ rdi c = a_rdi st ∧ rbp c = a_rbp st
  ∧ r8 c = a_r8 st ∧ r9 c = a_r9 st ∧ r10 c = a_r10 st ∧ r11 c = a_r11 st
  ∧ r12 c = a_r12 st ∧ r13 c = a_r13 st ∧ r14 c = a_r14 st ∧ r15 c = a_r15 st.

(** Sessions [s] and [s'] differ in the memory map at most. *)
Definition same_but_map `{kvm_driver} (s s' : ivee) : Prop :=
  vm s' = vm s ∧ x86_cpu s' = x86_cpu s ∧ entry_addr s' = entry_addr s
  ∧ gpt_mr s' = gpt_mr s ∧ should_terminate s' = should_terminate s.

(** Sessions [s] and [s'] differ in the memory map and the entry point at
    most. *)
Definition same_but_map_entry `{kvm_driver} (s s' : ivee) : Prop :=
  vm s' = vm s ∧ x86_cpu s' = x86_cpu s
  ∧ gpt_mr s' = gpt_mr s ∧ should_terminate s' = should_terminate s.

(** ** Sample inputs

    Concrete header values, a driver and files on which the code can be
    evaluated. *)

(** libivee.h, memory.h and x86.h are not at hand: the samples take
    single-bit protections and flags, port 0x10 and exit reason 1. *)
Definition sample_headers : headers :=
  {| IVEE_READ := 1; IVEE_WRITE := 2; IVEE_EXEC := 4;
     IVEE_PIO_EXIT_PORT := 0x10; IVEE_EXIT_IO := 1;
     X86_SEG_TYPE_CODE := 8; X86_SEG_TYPE_DATA := 2; X86_SEG_TYPE_ACC := 1;
     X86_SEG_TYPE_TSS32 := 11; X86_SEG_TYPE_LDT := 2;
     X86_SEG_S := 1; X86_SEG_P := 2; X86_SEG_G := 4; X86_SEG_L := 8;
     X86_SEG_DB := 16 |}.

(** A driver whose VM is the register file of its one vCPU.  Loading
    commits the image, a run applies [guest] to the registers, reading back
    returns them with status [store_status] and installing a memory map
    answers [install_status]. *)
Definition sim_driver (guest : x86_cpu_state → Z * ivee_exit * x86_cpu_state)
    (store_status install_status : Z) : kvm_driver :=
  {| ivee_kvm_vm := x86_cpu_state;
     ivee_init_kvm := 0;
     kvm_new_vm := Some zero_cpu;
     ivee_init_memory_map := 0;
     ivee_set_kvm_memory_map := λ v _, (install_status, v);
     ivee_kvm_load_vcpu_state := λ v c,
       match v with
       | Some _ => (0, Some c)
       | None => (- EINVAL, None)
       end;
     ivee_kvm_store_vcpu_state := λ v c,
       match v with
       | Some regs => (store_status, if store_status =? 0 then regs else c)
       | None => (- EINVAL, c)
       end;
     ivee_kvm_run := λ v,
       match v with
       | Some regs => let '(res, exit, regs) := guest regs in (res, exit, Some regs)
       | None =>
           (- EINVAL,
            {| exit_reason := 0;
               io := {| port := 0; pio_direction := 0; pio_size := 0; pio_data := 0 |} |},
            None)
       end |}.

Definition set_rbp (x : Z) (c : x86_cpu_state) : x86_cpu_state :=
  {| rax := rax c; rbx := rbx c; rcx := rcx c; rdx := rdx c; rsi := rsi c;
     rdi := rdi c; rbp := x; r8 := r8 c; r9 := r9 c; r10 := r10 c;
     r11 := r11 c; r12 := r12 c; r13 := r13 c; r14 := r14 c; r15 := r15 c;
     rip := rip c; rflags := rflags c;
     cs := cs c; ds := ds c; ss := ss c; es := es c; fs := fs c; gs := gs c;
     tr := tr c; ldt := ldt c;
     cr0 := cr0 c; cr3 := cr3 c; cr4 := cr4 c; efer := efer c |}.

(** An [out] of one byte to [p]. *)
Definition pio_out (p data : Z) : ivee_exit :=
  {| exit_reason := 1;
     io := {| port := p; pio_direction := 1; pio_size := 1; pio_data := data |} |}.

(** The guest [mov rbp, 1; out 0x10, al]. *)
Definition guest_rbp (regs : x86_cpu_state) : Z * ivee_exit * x86_cpu_state :=
  (0, pio_out 0x10 (rax regs mod 256), set_rbp 1 regs).

Definition set_rax (x : Z) (c : x86_cpu_state) : x86_cpu_state :=
  {| rax := x; rbx := rbx c; rcx := rcx c; rdx := rdx c; rsi := rsi c;
     rdi := rdi c; rbp := rbp c; r8 := r8 c; r9 := r9 c; r10 := r10 c;
     r11 := r11 c; r12 := r12 c; r13 := r13 c; r14 := r14 c; r15 := r15 c;
     rip := rip c; rflags := rflags c;
     cs := cs c; ds := ds c; ss := ss c; es := es c; fs := fs c; gs := gs c;
     tr := tr c; ldt := ldt c;
     cr0 := cr0 c; cr3 := cr3 c; cr4 := cr4 c; efer := efer c |}.

(** The guest [mov rax, 42; out 0x10, al]. *)
Definition guest_mov (regs : x86_cpu_state) : Z * ivee_exit * x86_cpu_state :=
  (0, pio_out 0x10 42, set_rax 42 regs).

(** The guest [in al, 0x60]. *)
Definition guest_in_0x60 (regs : x86_cpu_state) : Z * ivee_exit * x86_cpu_state :=
  (0,
   {| exit_reason := 1;
      io := {| port := 0x60; pio_direction := 0; pio_size := 1; pio_data := 0 |} |},
   regs).

(** The guest [hlt]; 5 stands for an exit reason other than the port
    access. *)
Definition guest_hlt (regs : x86_cpu_state) : Z * ivee_exit * x86_cpu_state :=
  (0,
   {| exit_reason := 5;
      io := {| port := 0; pio_direction := 0; pio_size := 0; pio_data := 0 |} |},
   regs).

(** A fresh process. *)
Definition sample_host : host :=
  {| mappings := ∅; next_hva := 0x7f0000000000; grants := []; errno := 0;
     live_sessions := 0; live_vms := 0 |}.

(** A flat binary of 16 bytes, which libelf does not take for an ELF file. *)
Definition flat_file : file :=
  {| f_access := Ok (); f_stat := Ok 16; f_open := Ok 3;
     f_image := λ i, if i =? 0 then 0xEE10B0 else 0;
     f_pread := λ count offset, Ok (Z.max 0 (Z.min count (16 - offset)));
     f_fill := λ _ _ w, w;
     elf_version := 1; elf_begin := true; elf_kind := 0;
     gelf_getehdr := None; gelf_getclass := 0; gelf_getphdr := λ _, None;
     elf_errno := 0 |}.

(** An ELF64 executable for x86-64 with one LOAD segment of one page at
    0x10000, readable and executable, whose bytes sit at file offset 0x1000;
    [read] is what [pread] answers for that segment. *)
Definition elf_file (read : sys Z) : file :=
  {| f_access := Ok (); f_stat := Ok 0x1800; f_open := Ok 3;
     f_image := λ _, 0;
     f_pread := λ _ _, read;
     f_fill := λ _ _ w, w;
     elf_version := 1; elf_begin := true; elf_kind := ELF_K_ELF;
     gelf_getehdr :=
       Some {| e_type := ET_EXEC; e_machine := EM_X86_64; e_entry := 0x10000;
               e_phnum := 1 |};
     gelf_getclass := ELFCLASS64;
     gelf_getphdr := λ i,
       if i =? 0 then
         Some {| p_type := PT_LOAD; p_flags := Z.lor PF_R PF_X; p_offset := 0x1000;
                 p_vaddr := 0x10000; p_filesz := 0x1000; p_memsz := 0x1000 |}
       else None;
     elf_errno := 0 |}.

(** The file is cut short at 0x1800: the segment's read transfers 0x800 of
    its 0x1000 bytes. *)
Definition elf_truncated : file := elf_file (Ok 0x800).

(** The segment's read fails with EIO. *)
Definition elf_unreadable : file := elf_file (Fail EIO).

(** The same ELF file, read in full. *)
Definition elf_readable : file := elf_file (Ok 0x1000).


(** An ELF64 executable for the 80386 (machine 3). *)
Definition elf_i386 : file :=
  {| f_access := Ok (); f_stat := Ok 0x1800; f_open := Ok 3;
     f_image := λ _, 0;
     f_pread := λ count _, Ok count;
     f_fill := λ _ _ w, w;
     elf_version := 1; elf_begin := true; elf_kind := ELF_K_ELF;
     gelf_getehdr :=
       Some {| e_type := ET_EXEC; e_machine := 3; e_entry := 0x10000;
               e_phnum := 1 |};
     gelf_getclass := ELFCLASS64;
     gelf_getphdr := gelf_getphdr elf_readable;
     elf_errno := 0 |}.

(** An ELF64 executable for x86-64 whose two program headers are a NOTE
    (type 4) and a GNU_STACK (type 0x6474e551): nothing to load. *)
Definition elf_no_load : file :=
  {| f_access := Ok (); f_stat := Ok 0x1800; f_open := Ok 3;
     f_image := λ _, 0;
     f_pread := λ count _, Ok count;
     f_fill := λ _ _ w, w;
     elf_version := 1; elf_begin := true; elf_kind := ELF_K_ELF;
     gelf_getehdr :=
       Some {| e_type := ET_DYN; e_machine := EM_X86_64; e_entry := 0x1040;
               e_phnum := 2 |};
     gelf_getclass := ELFCLASS64;
     gelf_getphdr := λ i,
       if i =? 0 then
         Some {| p_type := 4; p_flags := PF_R; p_offset := 0x200;
                 p_vaddr := 0x200; p_filesz := 0x20; p_memsz := 0x20 |}
       else if i =? 1 then
         Some {| p_type := 0x6474e551; p_flags := Z.lor PF_R PF_W; p_offset := 0;
                 p_vaddr := 0; p_filesz := 0; p_memsz := 0 |}
       else None;
     elf_errno := 0 |}.

(** An empty file. *)
Definition empty_file : file :=
  {| f_access := Ok (); f_stat := Ok 0; f_open := Ok 3;
     f_image := λ _, 0;
     f_pread := λ _ _, Ok 0;
     f_fill := λ _ _ w, w;
     elf_version := 1; elf_begin := true; elf_kind := 0;
     gelf_getehdr := None; gelf_getclass := 0; gelf_getphdr := λ _, None;
     elf_errno := 0 |}.

(** The guest [out 0x10, al]: it changes no register. *)
Definition guest_exit (regs : x86_cpu_state) : Z * ivee_exit * x86_cpu_state :=
  (0, pio_out 0x10 (rax regs mod 256), regs).

(** A caller's block with a value in every register. *)
Definition sample_arch_state : ivee_arch_state :=
  {| a_rax := 1; a_rbx := 2; a_rcx := 3; a_rdx := 4; a_rsi := 5; a_rdi := 6;
     a_rbp := 7; a_r8 := 8; a_r9 := 9; a_r10 := 10; a_r11 := 11; a_r12 := 12;
     a_r13 := 13; a_r14 := 14; a_r15 := 15 |}.

(** A driver like the one above with an idle guest, except that it refuses
    the registers with [status]. *)
Definition refusing_driver (status : Z) : kvm_driver :=
  {| ivee_kvm_vm := x86_cpu_state;
     ivee_init_kvm := 0;
     kvm_new_vm := Some zero_cpu;
     ivee_init_memory_map := 0;
     ivee_set_kvm_memory_map := λ v _, (0, v);
     ivee_kvm_load_vcpu_state := λ v _, (status, v);
     ivee_kvm_store_vcpu_state := λ v c, (0, default c v);
     ivee_kvm_run := λ v,
       match v with
       | Some regs => let '(res, exit, regs) := guest_exit regs in (res, exit, Some regs)
       | None => (- EINVAL, pio_out 0 0, None)
       end |}.

(** The session [ivee_create] makes on that driver. *)
Definition refused_session (status : Z) : @ivee (refusing_driver status) :=
  match (@ivee_create (refusing_driver status) 0 (Some None) sample_host).1.2 with
  | Some (Some s) => s
  | _ => @zero_ivee (refusing_driver status)
  end.

Definition zero_arch_state : ivee_arch_state :=
  {| a_rax := 0; a_rbx := 0; a_rcx := 0; a_rdx := 0; a_rsi := 0; a_rdi := 0;
     a_rbp := 0; a_r8 := 0; a_r9 := 0; a_r10 := 0; a_r11 := 0; a_r12 := 0;
     a_r13 := 0; a_r14 := 0; a_r15 := 0 |}.

Section Samples.
Context (guest : x86_cpu_state → Z * ivee_exit * x86_cpu_state)
        (store_status install_status : Z).

#[local] Existing Instance sample_headers.
#[local] Instance sample_driver : kvm_driver :=
  sim_driver guest store_status install_status.

(** [ivee_create(0, &p)] in a fresh process. *)
Definition sample_created : Z * option (option ivee) * host :=
  ivee_create 0 (Some None) sample_host.

(** The session [p] then points to. *)
Definition sample_session : ivee :=
  match sample_created.1.2 with
  | Some (Some s) => s
  | _ => zero_ivee
  end.

(** [ivee_load_executable(p, file, format)] after that. *)
Definition sample_load (f : file) (format : ivee_executable_format_t)
  : Z * option ivee * host :=
  ivee_load_executable (Some sample_session) (Some f) format sample_created.2.

(** The session and the host after loading the flat binary. *)
Definition sample_loaded : ivee :=
  default zero_ivee (sample_load flat_file IVEE_EXEC_BIN).1.2.

Definition sample_loaded_host : host :=
  (sample_load flat_file IVEE_EXEC_BIN).2.
End Samples.

(** ** Tactics *)

(** Unfolds the word offsets of the tables to numbers. *)
Ltac table_offsets :=
  unfold pte_pages_base, pde_off, pdpe_off, pml4_off, words_per_page in *;
  change (X86_PAGE_SIZE / 8) with 512 in *;
  change X86_PTES_PER_PAGE with 512 in *;
  change IVEE_GUEST_PAGES_COUNT with 262144 in *.
(** * Properties *)

(** ** Stores through a pointer, in sequence *)

Section Stores.
Context {A : Type} (k : A → Z) (v : A → Z).

Lemma stores_miss (l : list A) (m : words) (j : Z) :
  (∀ x, x ∈ l → k x ≠ j) →
  foldl (λ m x, <[k x := v x]> m) m l j = m j.
Proof.
  induction l as [|a l IH] using rev_ind; intros Hne; [done|].
  rewrite foldl_snoc, fn_lookup_insert_ne.
  - apply IH. intros x Hx. apply Hne, elem_of_app. by left.
  - apply Hne, elem_of_app. right. by apply list_elem_of_singleton.
Qed.

Lemma stores_hit (l : list A) (m : words) (j val : Z) :
  (∃ x, x ∈ l ∧ k x = j) →
  (∀ y, y ∈ l → k y = j → v y = val) →
  foldl (λ m x, <[k x := v x]> m) m l j = val.
Proof.
  induction l as [|a l IH] using rev_ind; intros [x [Hx Hk]] Hval.
  - by apply elem_of_nil in Hx.
  - rewrite foldl_snoc. destruct (decide (k a = j)) as [<-|Hne].
    + rewrite fn_lookup_insert. apply Hval; [|done].
      apply elem_of_app. right. by apply list_elem_of_singleton.
    + rewrite fn_lookup_insert_ne by done. apply IH.
      * exists x. split; [|done].
        apply elem_of_app in Hx as [Hx|Hx]; [done|].
        apply list_elem_of_singleton in Hx. congruence.
      * intros y Hy. apply Hval, elem_of_app. by left.
Qed.
End Stores.

Section PageTableFacts.
Context `{headers}.



Lemma map_regions_frames (map : ivee_memory_map) (m : words) :
  foldl map_region_frames m map
  = foldl (λ m x, <[pte_slot x.1 := pte_entry x.1 x.2]> m) m (frames_of map).
Proof.
  revert m. induction map as [|mr map IH]; intros m; [done|].
  unfold frames_of. rewrite bind_cons, foldl_app. fold (frames_of map).
  rewrite <- IH. simpl. f_equal. unfold map_region_frames.
  by rewrite foldl_fmap.
Qed.

End PageTableFacts.

(** ** Bits of the entries *)




Section EntryFacts.
Context `{headers}.



End EntryFacts.

(** ** What [memory_map_ok] gives *)



Section BuilderFacts.
Context `{headers}.

End BuilderFacts.

(** ** A successful [ivee_load_executable] *)

Section LoadFacts.
Context `{headers} `{kvm_driver}.

Lemma host_mmap_some (size : Z) (image : words) (h h' : host) (a : Z) :
  host_mmap size image h = (Some a, h') → mappings h' !! a = Some image.
Proof.
  unfold host_mmap. destruct (size <=? 0); [done|].
  destruct (next_grant h) as [[] h1]; [|done].
  intros [= <- <-]. simpl. apply lookup_insert_eq.
Qed.

Lemma ivee_map_host_memory_some (map map' : ivee_memory_map) (gpa size : Z)
    (fd : option words) (ro : bool) (p : Z) (h h' : host)
    (r : ivee_guest_memory_region) :
  ivee_map_host_memory map gpa size fd ro p h = (Some r, map', h') →
  mappings h' !! hva r = Some (default (λ _, 0) fd)
  ∧ prot r = p ∧ map' = insert_sorted r map.
Proof.
  unfold ivee_map_host_memory. destruct (negb _); [done|].
  destruct (existsb _ _); [done|].
  destruct (host_mmap _ _ _) as [[a|] h1] eqn:Hmmap; [|done].
  intros [= <- <- <-]. simpl. split_and!; [|done..].
  by apply host_mmap_some in Hmmap.
Qed.

Lemma init_guest_page_table_ok (s s' : ivee) (h h' : host) :
  init_guest_page_table s h = (0, s', h') →
  ∃ r, gpt_mr s' = Some r
       ∧ mappings h' !! hva r = Some (write_page_table (memory_map s') (λ _, 0)).
Proof.
  unfold init_guest_page_table.
  destruct (ivee_map_host_memory _ _ _ _ _ _ _) as [[[r|] map] h1] eqn:Hmap;
    [|done].
  intros [= <- <-]. exists r. split; [done|].
  apply ivee_map_host_memory_some in Hmap as [Hlive _].
  unfold host_store, host_load. simpl. rewrite lookup_alter_eq, Hlive. done.
Qed.

Lemma ivee_load_executable_ok (s s' : ivee) (f : file)
    (format : ivee_executable_format_t) (h h' : host) :
  ivee_load_executable (Some s) (Some f) format h = (0, Some s', h') →
  ∃ s1 h1 s2 v,
    init_guest_page_table s1 h1 = (0, s2, h')
    ∧ s' = set_x86_cpu (init_x86_cpu (x86_cpu s2)) (set_vm v s2).
Proof.
  unfold ivee_load_executable, drop_memory_map, ivee_free_memory_map.
  destruct (f_access f); [|intros [=]].
  destruct (match format with
            | IVEE_EXEC_BIN => _ | IVEE_EXEC_ELF64 => _ | IVEE_EXEC_ANY => _
            | IVEE_EXEC_other _ => _ end) as [[res s1] h1].
  case_bool_decide; [by intros [= ? ? ?]|].
  destruct (init_guest_page_table s1 h1) as [[res2 s2] h2] eqn:Hpt.
  case_bool_decide; [by intros [= ? ? ?]|].
  destruct (ivee_set_kvm_memory_map _ _) as [res3 v].
  case_bool_decide; [by intros [= ? ? ?]|].
  intros [= <- <-]. exists s1, h1, s2, v.
  assert (res2 = 0) as -> by (destruct (decide (res2 = 0)); done).
  done.
Qed.
End LoadFacts.

(** ** Mapping a region keeps the regions apart *)

Lemma elem_of_insert_sorted (r x : ivee_guest_memory_region) (map : ivee_memory_map) :
  x ∈ insert_sorted r map ↔ x = r ∨ x ∈ map.
Proof.
  induction map as [|y map IH]; simpl.
  - rewrite list_elem_of_singleton. split; [auto|]. intros [->|Hx]; [done|].
    by apply elem_of_nil in Hx.
  - destruct (first_gfn r <? first_gfn y).
    + by rewrite elem_of_cons.
    + rewrite !elem_of_cons, IH. tauto.
Qed.

Lemma overlaps_sym (r x : ivee_guest_memory_region) :
  overlaps (first_gfn r) (last_gfn r) x = overlaps (first_gfn x) (last_gfn x) r.
Proof. unfold overlaps. apply andb_comm. Qed.

Lemma regions_disjoint_insert (r : ivee_guest_memory_region) (map : ivee_memory_map) :
  existsb (overlaps (first_gfn r) (last_gfn r)) map = false →
  regions_disjoint map = true →
  regions_disjoint (insert_sorted r map) = true.
Proof.
  induction map as [|x map IH]; simpl; intros Hno Hd; [done|].
  apply orb_false_elim in Hno as [Hx Hrest].
  apply andb_prop in Hd as [Hxd Hmd].
  destruct (first_gfn r <? first_gfn x); simpl.
  - rewrite Hx, Hxd, Hmd. simpl. rewrite andb_true_r.
    apply forallb_forall. intros y Hy. apply negb_true_iff.
    destruct (overlaps (first_gfn r) (last_gfn r) y) eqn:Hov; [|done].
    assert (existsb (overlaps (first_gfn r) (last_gfn r)) map = true) as Hex
      by (apply existsb_exists; eauto).
    congruence.
  - rewrite IH by done. rewrite andb_true_r.
    apply forallb_forall. intros y Hy.
    apply list_elem_of_In, elem_of_insert_sorted in Hy as [->|Hy].
    + by rewrite <- overlaps_sym, Hx.
    + rewrite forallb_forall in Hxd. by apply Hxd, list_elem_of_In.
Qed.

Lemma ivee_map_host_memory_disjoint (map map' : ivee_memory_map) (gpa size : Z)
    (fd : option words) (ro : bool) (p : Z) (h h' : host)
    (o : option ivee_guest_memory_region) :
  regions_disjoint map = true →
  ivee_map_host_memory map gpa size fd ro p h = (o, map', h') →
  regions_disjoint map' = true.
Proof.
  intros Hd. unfold ivee_map_host_memory.
  destruct (negb _); [by intros [= <- <- <-]|].
  destruct (existsb _ _) eqn:Hno; [by intros [= <- <- <-]|].
  destruct (host_mmap _ _ _) as [[a|] h1]; intros [= <- <- <-]; [|done].
  by apply regions_disjoint_insert.
Qed.

(** ** Properties of the memory map that every mapping keeps

    The loaders and the page-table builder change the memory map through
    [ivee_map_host_memory] only, so a property of the map that each mapping
    keeps holds after a successful load. *)

Section MapInvariant.
Context `{headers} `{kvm_driver}.
Variable P : ivee_memory_map → Prop.
Hypothesis P_map :
  ∀ map map' gpa size fd ro p h h' o,
    P map → ivee_map_host_memory map gpa size fd ro p h = (o, map', h') → P map'.

Lemma load_bin_keeps (s s' : ivee) (f : file) (h h' : host) (res : Z) :
  P (memory_map s) → load_bin s f h = (res, s', h') → P (memory_map s').
Proof.
  intros HP. unfold load_bin, sys_stat, sys_open.
  destruct (f_stat f) as [size|e]; simpl; [|by intros [= <- <- <-]].
  destruct (wrap64 size =? 0); [by intros [= <- <- <-]|].
  destruct (f_open f) as [fd|e]; [|by intros [= <- <- <-]].
  destruct (fd <? 0); [by intros [= <- <- <-]|].
  destruct (ivee_map_host_memory _ _ _ _ _ _ _) as [[o map] h1] eqn:Hmap.
  apply P_map in Hmap; [|done].
  destruct o; by intros [= <- <- <-].
Qed.

Lemma load_segments_keeps (f : file) (n : nat) (i res : Z) (s s' : ivee)
    (h h' : host) (x : loop_exit) :
  P (memory_map s) →
  load_segments f n i res s h = (x, s', h') →
  P (memory_map s').
Proof.
  revert i s h. induction n as [|n IH]; intros i s h HP; simpl.
  - by intros [= <- <- <-].
  - destruct (gelf_getphdr f i) as [phdr|]; [|by intros [= <- <- <-]].
    case_bool_decide; [by apply IH|].
    destruct (ivee_map_host_memory _ _ _ _ _ _ _) as [[o map] h1] eqn:Hmap.
    apply P_map in Hmap; [|done].
    destruct o as [mr|]; [|by intros [= <- <- <-]].
    destruct (sys_pread _ _ _ _ _) as [nbytes h2].
    case_bool_decide; [by intros [= <- <- <-]|by apply IH].
Qed.

Lemma load_elf64_keeps (s s' : ivee) (f : file) (h h' : host) (res : Z) :
  P (memory_map s) → load_elf64 s f h = (res, s', h') → P (memory_map s').
Proof.
  intros HP. unfold load_elf64, sys_open.
  destruct (elf_version f =? EV_NONE); [by intros [= <- <- <-]|].
  destruct (f_open f) as [fd|e]; simpl.
  2: { by intros [= <- <- <-]. }
  destruct (fd <? 0); [by intros [= <- <- <-]|].
  destruct (negb (elf_begin f)); [by intros [= <- <- <-]|].
  case_bool_decide; [by intros [= <- <- <-]|].
  destruct (gelf_getehdr f) as [ehdr|]; [|by intros [= <- <- <-]].
  case_bool_decide; [by intros [= <- <- <-]|].
  destruct (_ && _); [by intros [= <- <- <-]|].
  case_bool_decide; [by intros [= <- <- <-]|].
  destruct (load_segments _ _ _ _ _ _) as [[x s1] h1] eqn:Hsegs.
  apply load_segments_keeps in Hsegs; [|done].
  destruct x; by intros [= <- <- <-].
Qed.

Lemma load_any_keeps (s s' : ivee) (f : file) (h h' : host) (res : Z) :
  P (memory_map s) → load_any s f h = (res, s', h') → P (memory_map s').
Proof.
  intros HP. unfold load_any.
  destruct (load_elf64 s f h) as [[r s1] h1] eqn:Helf.
  apply load_elf64_keeps in Helf; [|done].
  destruct (r =? 0); [by intros [= <- <- <-]|].
  by apply load_bin_keeps.
Qed.

Lemma init_guest_page_table_keeps (s s' : ivee) (h h' : host) (res : Z) :
  P (memory_map s) →
  init_guest_page_table s h = (res, s', h') →
  P (memory_map s').
Proof.
  intros HP. unfold init_guest_page_table.
  destruct (ivee_map_host_memory _ _ _ _ _ _ _) as [[o map] h1] eqn:Hmap.
  apply P_map in Hmap; [|done].
  destruct o as [r|]; by intros [= <- <- <-].
Qed.

Lemma ivee_load_executable_keeps (s s' : ivee) (f : file)
    (format : ivee_executable_format_t) (h h' : host) :
  P (memory_map s) →
  ivee_load_executable (Some s) (Some f) format h = (0, Some s', h') →
  P (memory_map s').
Proof.
  intros HP. unfold ivee_load_executable, drop_memory_map, ivee_free_memory_map.
  destruct (f_access f); [|intros [=]].
  destruct (match format with
            | IVEE_EXEC_BIN => _ | IVEE_EXEC_ELF64 => _ | IVEE_EXEC_ANY => _
            | IVEE_EXEC_other _ => _ end) as [[res s1] h1] eqn:Hloader.
  assert (P (memory_map s1)) as HP1.
  { destruct format; [by eapply load_bin_keeps|by eapply load_elf64_keeps
                     |by eapply load_any_keeps|].
    by injection Hloader as <- <- <-. }
  case_bool_decide; [by intros [= ? ? ?]|].
  destruct (init_guest_page_table s1 h1) as [[res2 s2] h2] eqn:Hpt.
  apply init_guest_page_table_keeps in Hpt; [|done].
  case_bool_decide; [by intros [= ? ? ?]|].
  destruct (ivee_set_kvm_memory_map _ _) as [res3 v].
  case_bool_decide; [by intros [= ? ? ?]|].
  by intros [= <- <-].
Qed.
End MapInvariant.

(** Regions never overlap: a successful load of a session whose regions
    were apart leaves them apart. *)
Lemma load_keeps_regions_disjoint `{headers} `{kvm_driver} (s s' : ivee)
    (f : file) (format : ivee_executable_format_t) (h h' : host) :
  regions_disjoint (memory_map s) = true →
  ivee_load_executable (Some s) (Some f) format h = (0, Some s', h') →
  regions_disjoint (memory_map s') = true.
Proof.
  apply (ivee_load_executable_keeps (λ map, regions_disjoint map = true)).
  intros map map' gpa size fd ro p h1 h1' o Hd Hmap.
  by apply (ivee_map_host_memory_disjoint map map' gpa size fd ro p h1 h1' o).
Qed.

(** ** The samples load *)

Lemma sample_load_flat (guest : x86_cpu_state → Z * ivee_exit * x86_cpu_state)
    (store_status : Z) :
  sample_load guest store_status 0 flat_file IVEE_EXEC_BIN
  = (0, Some (sample_loaded guest store_status 0),
     sample_loaded_host guest store_status 0).
Proof.
  unfold sample_loaded, sample_loaded_host.
  assert ((sample_load guest store_status 0 flat_file IVEE_EXEC_BIN).1.1 = 0)
    as Hres by (vm_compute; reflexivity).
  assert (is_Some (sample_load guest store_status 0 flat_file IVEE_EXEC_BIN).1.2)
    as [s Hs] by (vm_compute; eauto).
  destruct (sample_load guest store_status 0 flat_file IVEE_EXEC_BIN) as [[res o] h].
  simpl in *. by subst.
Qed.


(** ** The page tables and the boot CPU image after a load *)

Section LoadClaims.
Context `{headers} `{kvm_driver}.


(** C9.  After a successful [ivee_load_executable] the boot CPU image has
    rflags = 0x2, cr0 = 0x80010001, cr4 = 0x20, efer = 0x500 and
    cr3 = PML4_BASE, which is 1 GiB − 515·4 KiB = 0x3FDFD000. *)
Theorem boot_cpu_after_load (s s' : ivee) (f : file)
    (format : ivee_executable_format_t) (h h' : host) :
  ivee_load_executable (Some s) (Some f) format h = (0, Some s', h') →
  rflags (x86_cpu s') = 0x2
  ∧ cr0 (x86_cpu s') = 0x80010001
  ∧ cr4 (x86_cpu s') = 0x20
  ∧ efer (x86_cpu s') = 0x500
  ∧ cr3 (x86_cpu s') = IVEE_PML4_BASE_GPA
  ∧ IVEE_PML4_BASE_GPA = 2 ^ 30 - 515 * (4 * 2 ^ 10)
  ∧ IVEE_PML4_BASE_GPA = 0x3FDFD000.
Proof.
  intros Hload.
  apply ivee_load_executable_ok in Hload as (s1 & h1 & s2 & v & _ & ->).
  done.
Qed.
End LoadClaims.



(** The boot image of the loaded flat binary. *)
Lemma boot_cpu_after_load_witness :
  cr0 (x86_cpu (sample_loaded guest_rbp 0 0)) = 0x80010001
  ∧ cr3 (x86_cpu (sample_loaded guest_rbp 0 0)) = 0x3FDFD000.
Proof.
  destruct (boot_cpu_after_load (H := sample_headers)
              (sample_session guest_rbp 0 0) (sample_loaded guest_rbp 0 0)
              flat_file IVEE_EXEC_BIN (sample_created guest_rbp 0 0).2
              (sample_loaded_host guest_rbp 0 0))
    as (_ & Hcr0 & _ & _ & Hcr3 & _ & Hbase).
  - apply sample_load_flat.
  - split; [done|]. by rewrite Hcr3.
Defined.

(** ** The run loop and the call *)

Section CallClaims.
Context `{headers} `{kvm_driver}.

Lemma dispatch_exit_request (s : ivee) (e : ivee_exit) :
  exit_request e → dispatch_exit s e = (0, set_should_terminate true s).
Proof.
  intros [Hio Hport]. unfold dispatch_exit, handle_pio.
  by rewrite (proj2 (Z.eqb_eq _ _) Hio), (proj2 (Z.eqb_eq _ _) Hport).
Qed.

Lemma dispatch_exit_other (s : ivee) (e : ivee_exit) :
  ¬ exit_request e → dispatch_exit s e = (- ENOTSUP, s).
Proof.
  intros Hno. unfold dispatch_exit, handle_pio.
  destruct (Z.eqb_spec (exit_reason e) IVEE_EXIT_IO) as [Hio|]; [|done].
  destruct (Z.eqb_spec (port (io e)) IVEE_PIO_EXIT_PORT) as [Hport|]; [|done].
  by destruct Hno.
Qed.

(** One iteration decides the loop: the body returns, or it sets the flag
    that ends the loop. *)
Lemma run_loop_step (fuel : nat) (s : ivee) (res : Z) (e : ivee_exit)
    (v : option ivee_kvm_vm) :
  ivee_kvm_run (vm s) = (res, e, v) →
  run_loop (S fuel) s
  = if bool_decide (res ≠ 0) then Some (inl (res, set_vm v s))
    else if decide (exit_request e)
         then Some (inr (set_should_terminate true (set_vm v s)))
         else Some (inl (- ENOTSUP, set_vm v s)).
Proof.
  intros Hrun. simpl. rewrite Hrun. case_bool_decide; [done|].
  destruct (decide (exit_request e)) as [Hreq|Hno].
  - by rewrite dispatch_exit_request.
  - by rewrite dispatch_exit_other.
Qed.

(** C7.  For every exit record the run loop receives: a port access on
    [IVEE_PIO_EXIT_PORT] sets [should_terminate], whatever byte was
    written, and is consumed with status 0, ending the loop; a port access
    on any other port yields [-ENOTSUP]; and every other exit reason
    yields [-ENOTSUP]. *)
Theorem exit_dispatch (fuel : nat) (s : ivee) (e : ivee_exit)
    (v : option ivee_kvm_vm) :
  ivee_kvm_run (vm s) = (0, e, v) →
  (exit_reason e = IVEE_EXIT_IO → port (io e) = IVEE_PIO_EXIT_PORT →
     handle_pio (set_vm v s) (io e) = (0, set_should_terminate true (set_vm v s))
     ∧ run_loop (S fuel) s = Some (inr (set_should_terminate true (set_vm v s))))
  ∧ (exit_reason e = IVEE_EXIT_IO → port (io e) ≠ IVEE_PIO_EXIT_PORT →
       handle_pio (set_vm v s) (io e) = (- ENOTSUP, set_vm v s)
       ∧ run_loop (S fuel) s = Some (inl (- ENOTSUP, set_vm v s)))
  ∧ (exit_reason e ≠ IVEE_EXIT_IO →
       dispatch_exit (set_vm v s) e = (- ENOTSUP, set_vm v s)
       ∧ run_loop (S fuel) s = Some (inl (- ENOTSUP, set_vm v s)))
  ∧ - ENOTSUP ≠ 0.
Proof.
  intros Hrun. rewrite (run_loop_step fuel s 0 e v Hrun).
  rewrite bool_decide_eq_false_2 by (intros Hne; by apply Hne).
  split_and!; [| | |done].
  - intros Hio Hport. rewrite decide_True by done.
    split; [|done]. unfold handle_pio.
    by rewrite (proj2 (Z.eqb_eq _ _) Hport).
  - intros Hio Hport. rewrite decide_False by (by intros [_ ?]).
    split; [|done]. unfold handle_pio.
    by rewrite (proj2 (Z.eqb_neq _ _) Hport).
  - intros Hio. rewrite decide_False by (by intros [? _]).
    split; [|done]. apply dispatch_exit_other. by intros [? _].
Qed.

(** C6, as the code has it.  Once the caller's registers are loaded, the
    loop ends after the first exit and the call returns.  A run failure
    returns the driver's status and an exit other than the exit request
    returns [-ENOTSUP], both at once, with the session's image not read
    back and the caller's block unchanged.  On the exit request
    [should_terminate] is set, the driver reads the vCPU back into the
    session's image and the status is that of the read-back; status 0
    arises in no other way and comes with rax, rbx, rcx, rdx, rsi, rdi and
    r8..r15 of the caller's block equal to those the driver read back and
    the caller's rbp as it was, any other status with the caller's block
    unchanged. *)
Theorem call_outcome (fuel : nat) (s s1 : ivee) (st : ivee_arch_state) :
  load_vcpu_state s st = (0, s1) →
  ∃ res s' st',
    ivee_call (S fuel) (Some s) (Some st) = Some (res, Some s', Some st')
    ∧ (res = 0 → should_terminate s' = true ∧ gprs_stored (x86_cpu s') st')
    ∧ (res ≠ 0 → st' = st)
    ∧ (∀ r e v,
         ivee_kvm_run (vm s1) = (r, e, v) →
         (r ≠ 0 → res = r ∧ x86_cpu s' = x86_cpu s1 ∧ st' = st)
         ∧ (r = 0 → ¬ exit_request e →
              res = - ENOTSUP ∧ x86_cpu s' = x86_cpu s1 ∧ st' = st)
         ∧ (r = 0 → exit_request e →
              should_terminate s' = true
              ∧ res = (ivee_kvm_store_vcpu_state v (x86_cpu s1)).1
              ∧ x86_cpu s' = (ivee_kvm_store_vcpu_state v (x86_cpu s1)).2
              ∧ (res = 0 →
                   gprs_stored (ivee_kvm_store_vcpu_state v (x86_cpu s1)).2 st'
                   ∧ a_rbp st' = a_rbp st))
         ∧ (res = 0 → r = 0 ∧ exit_request e)).
Proof.
  intros Hload. unfold ivee_call. rewrite Hload.
  rewrite bool_decide_eq_false_2 by (intros Hne; by apply Hne).
  destruct (ivee_kvm_run (vm s1)) as [[r e] v] eqn:Hrun.
  rewrite (run_loop_step fuel _ r e v) by done.
  case_bool_decide as Hr.
  - eexists _, _, _. split; [done|]. split_and!; [done|done|].
    intros r' e' v' [= <- <- <-]. split_and!; done.
  - assert (r = 0) as -> by (destruct (decide (r = 0)); done).
    destruct (decide (exit_request e)) as [Hreq|Hno].
    + unfold store_vcpu_state. simpl.
      destruct (ivee_kvm_store_vcpu_state v (x86_cpu s1)) as [rs c] eqn:Hst.
      case_bool_decide as Hrs.
      * eexists _, _, _. split; [done|]. split_and!; [done|done|].
        intros r' e' v' [= <- <- <-]. rewrite Hst. split_and!; done.
      * assert (rs = 0) as -> by (destruct (decide (rs = 0)); done).
        eexists _, _, _. split; [done|]. split_and!; [|done|].
        -- intros _. split; [done|]. by repeat split.
        -- intros r' e' v' [= <- <- <-]. rewrite Hst. split_and!; done.
    + eexists _, _, _. split; [done|]. split_and!; [done|done|].
      intros r' e' v' [= <- <- <-]. split_and!; done.
Qed.

(** C10.  Null pointer arguments are rejected with [-EINVAL] and nothing
    changes: [ivee_create] with a null out pointer leaves the host as it
    was (nothing is allocated); [ivee_load_executable] with a null session
    or a null path leaves session and host, hence the memory map, as they
    were; and [ivee_call] with a null session or a null register block
    returns without running the guest, session and block as they were. *)
Theorem null_arguments_rejected :
  (∀ caps h, ivee_create caps None h = (- EINVAL, None, h))
  ∧ (∀ file_p format h,
       ivee_load_executable None file_p format h = (- EINVAL, None, h))
  ∧ (∀ s format h,
       ivee_load_executable (Some s) None format h = (- EINVAL, Some s, h))
  ∧ (∀ fuel state, ivee_call fuel None state = Some (- EINVAL, None, state))
  ∧ (∀ fuel ivee_p, ivee_call fuel ivee_p None = Some (- EINVAL, ivee_p, None))
  ∧ - EINVAL ≠ 0.
Proof.
  split_and!; try done.
  intros fuel [s|]; done.
Qed.
End CallClaims.

(** ** The call path on the samples *)

(** The three kinds of exit on the loaded flat binary: the exit request ends
    the loop with the flag set, a read of port 0x60 and a halt are refused. *)
Lemma exit_dispatch_witness :
  (∃ s', run_loop (H := sample_headers) 1 (sample_loaded guest_rbp 0 0) = Some (inr s')
         ∧ should_terminate s' = true)
  ∧ (∃ s', run_loop (H := sample_headers) 1 (sample_loaded guest_in_0x60 0 0)
           = Some (inl (- ENOTSUP, s')))
  ∧ (∃ s', run_loop (H := sample_headers) 1 (sample_loaded guest_hlt 0 0)
           = Some (inl (- ENOTSUP, s'))).
Proof.
  split_and!.
  - pose (s := sample_loaded guest_rbp 0 0).
    pose (x := ivee_kvm_run (vm s)).
    destruct (exit_dispatch (H := sample_headers) 0 s x.1.2 x.2) as [Hexit _].
    + vm_compute. reflexivity.
    + destruct Hexit as [_ Hloop]; [reflexivity..|].
      eexists. split; [exact Hloop|reflexivity].
  - pose (s := sample_loaded guest_in_0x60 0 0).
    pose (x := ivee_kvm_run (vm s)).
    destruct (exit_dispatch (H := sample_headers) 0 s x.1.2 x.2) as (_ & Hport & _).
    + vm_compute. reflexivity.
    + destruct Hport as [_ Hloop]; [reflexivity|by vm_compute|].
      eexists. exact Hloop.
  - pose (s := sample_loaded guest_hlt 0 0).
    pose (x := ivee_kvm_run (vm s)).
    destruct (exit_dispatch (H := sample_headers) 0 s x.1.2 x.2) as (_ & _ & Hother & _).
    + vm_compute. reflexivity.
    + destruct Hother as [_ Hloop]; [by vm_compute|].
      eexists. exact Hloop.
Defined.

(** A call whose guest puts 42 in rax and makes the exit request, with 1
    in rax, 2 in rbx and 7 in rbp: status 0, the image of the session is
    the one read back, rax of the caller's block is the guest's 42, and rbx
    and rbp are as they were. *)
Lemma call_outcome_witness :
  ∃ s' st',
    ivee_call (H := sample_headers) 1 (Some (sample_loaded guest_mov 0 0))
              (Some sample_arch_state)
    = Some (0, Some s', Some st')
    ∧ should_terminate s' = true
    ∧ rax (x86_cpu s') = 42
    ∧ a_rax st' = 42
    ∧ a_rbx st' = 2
    ∧ a_rbp st' = 7.
Proof.
  pose (s := sample_loaded guest_mov 0 0).
  pose (l := load_vcpu_state (H0 := sample_driver guest_mov 0 0) s sample_arch_state).
  destruct (call_outcome (H := sample_headers) 0 s l.2 sample_arch_state)
    as (res & s' & st' & Hcall & _ & _ & Hrun).
  - vm_compute. reflexivity.
  - pose (x := ivee_kvm_run (vm l.2)).
    destruct (Hrun x.1.1 x.1.2 x.2) as (_ & _ & Hreq & _); [vm_compute; reflexivity|].
    destruct Hreq as (Hflag & Hres & Himg & Hregs); [reflexivity|by vm_compute|].
    assert (res = 0) as -> by (rewrite Hres; vm_compute; reflexivity).
    destruct Hregs as [(Hrax & Hrbx & _) Hrbp]; [done|].
    exists s', st'. split_and!; [done|done| | | |].
    + rewrite Himg. by vm_compute.
    + rewrite Hrax. by vm_compute.
    + rewrite Hrbx. by vm_compute.
    + rewrite Hrbp. by vm_compute.
Defined.

(** C6, as stated, fails on the code: the guest makes the exit request, so
    [should_terminate] is set, but the read-back of the vCPU fails with
    [-EIO]; the call returns that status instead of success and nothing is
    stored into the caller's block. *)
Lemma call_store_failure :
  ∃ s',
    ivee_call (H := sample_headers) 1 (Some (sample_loaded guest_rbp (- EIO) 0))
              (Some zero_arch_state)
    = Some (- EIO, Some s', Some zero_arch_state)
    ∧ should_terminate s' = true
    ∧ - EIO ≠ 0.
Proof.
  eexists. split_and!; [vm_compute; reflexivity|reflexivity|done].
Qed.

(** [store_vcpu_state] never writes the caller's rbp. *)
Lemma store_vcpu_state_keeps_rbp `{kvm_driver}
    (s s' : ivee) (st st' : ivee_arch_state) (res : Z) :
  store_vcpu_state s st = (res, s', st') → a_rbp st' = a_rbp st.
Proof.
  unfold store_vcpu_state.
  destruct (ivee_kvm_store_vcpu_state _ _) as [r c].
  case_bool_decide; by intros [= <- <- <-].
Qed.

(** C2 fails on the code.  The guest [mov rbp, 1; out 0x10, al] is called
    with an all-zero register block: the call returns 0 and the vCPU's rbp,
    as read back into the session's image, is 1, but the caller's rbp is
    still 0. *)
Lemma call_drops_rbp :
  ∃ s' st',
    ivee_call (H := sample_headers) 1 (Some (sample_loaded guest_rbp 0 0))
              (Some zero_arch_state)
    = Some (0, Some s', Some st')
    ∧ rbp (x86_cpu s') = 1
    ∧ a_rbp st' = 0
    ∧ a_rbp st' ≠ rbp (x86_cpu s').
Proof.
  eexists _, _. split_and!; [vm_compute; reflexivity|reflexivity..|done].
Qed.

(** ** Host mappings through a load *)

Lemma live_host_store (a b : Z) (w : words) (h : host) :
  live a (host_store b w h) ↔ live a h.
Proof.
  unfold live, host_store. simpl. rewrite lookup_alter.
  case_decide; [subst; apply fmap_is_Some|done].
Qed.

Lemma host_mmap_live (size : Z) (image : words) (h h' : host) (o : option Z) :
  host_mmap size image h = (o, h') →
  ∀ a, live a h' → live a h ∨ o = Some a.
Proof.
  unfold host_mmap. destruct (size <=? 0); [by intros [= <- <-]; auto|].
  unfold next_grant. destruct (grants h) as [|[] rest]; intros [= <- <-] a;
    unfold live; simpl; try by auto.
  all: rewrite lookup_insert; case_decide; subst; auto.
Qed.

Lemma ivee_map_host_memory_tracks (map map' : ivee_memory_map) (gpa size : Z)
    (fd : option words) (ro : bool) (p : Z) (h h' : host)
    (o : option ivee_guest_memory_region) :
  ivee_map_host_memory map gpa size fd ro p h = (o, map', h') →
  (∀ x, x ∈ map → x ∈ map')
  ∧ (∀ a, live a h' → live a h ∨ ∃ r, r ∈ map' ∧ hva r = a).
Proof.
  unfold ivee_map_host_memory. destruct (negb _); [by intros [= <- <- <-]; auto|].
  destruct (existsb _ _); [by intros [= <- <- <-]; auto|].
  destruct (host_mmap _ _ _) as [[b|] h1] eqn:Hmmap; intros [= <- <- <-].
  - split.
    + intros x Hx. apply elem_of_insert_sorted. by right.
    + intros a Ha. destruct (host_mmap_live _ _ _ _ _ Hmmap a Ha) as [?|[= ->]];
        [by left|right].
      eexists. split; [apply elem_of_insert_sorted; by left|done].
  - split; [done|]. intros a Ha.
    destruct (host_mmap_live _ _ _ _ _ Hmmap a Ha) as [?|[=]]. by left.
Qed.

Lemma ivee_free_memory_map_live (map : ivee_memory_map) (h : host) (a : Z) :
  live a (ivee_free_memory_map map h).2 →
  live a h ∧ ∀ r, r ∈ map → hva r ≠ a.
Proof.
  unfold ivee_free_memory_map. simpl. revert h.
  induction map as [|x map IH]; intros h Ha; simpl in *.
  - split; [done|]. intros r Hr. by apply elem_of_nil in Hr.
  - apply IH in Ha as [Ha Hrest].
    unfold live, host_munmap in Ha. simpl in Ha.
    rewrite lookup_delete in Ha. case_decide as Hx; [by destruct Ha|].
    split; [done|]. intros r Hr.
    apply elem_of_cons in Hr as [->|Hr]; [done|by apply Hrest].
Qed.

Section LoadInvariant.
Context `{headers} `{kvm_driver}.

Lemma load_inv_start (s : ivee) (h : host) : load_inv s h s h.
Proof. unfold load_inv. auto. Qed.

Lemma load_inv_map (s0 s : ivee) (h0 h h' : host) (map' : ivee_memory_map)
    (gpa size : Z) (fd : option words) (ro : bool) (p : Z)
    (o : option ivee_guest_memory_region) :
  load_inv s0 h0 s h →
  ivee_map_host_memory (memory_map s) gpa size fd ro p h = (o, map', h') →
  load_inv s0 h0 (set_memory_map map' s) h'.
Proof.
  intros (Hcpu & Hflag & Hlive) Hmap.
  apply ivee_map_host_memory_tracks in Hmap as [Hsub Hnew].
  split_and!; [done..|]. simpl. intros a Ha.
  destruct (Hnew a Ha) as [Hold|?]; [|by right].
  destruct (Hlive a Hold) as [?|(r & Hr & <-)]; [by left|right].
  exists r. auto.
Qed.

Lemma load_inv_entry (s0 s : ivee) (h0 h : host) (a : Z) :
  load_inv s0 h0 s h → load_inv s0 h0 (set_entry_addr a s) h.
Proof. done. Qed.

Lemma load_bin_inv (s0 s s' : ivee) (h0 h h' : host) (f : file) (res : Z) :
  load_inv s0 h0 s h → load_bin s f h = (res, s', h') → load_inv s0 h0 s' h'.
Proof.
  intros Hinv. unfold load_bin, sys_stat, sys_open.
  destruct (f_stat f) as [size|e]; simpl; [|by intros [= <- <- <-]].
  destruct (wrap64 size =? 0); [by intros [= <- <- <-]|].
  destruct (f_open f) as [fd|e]; [|by intros [= <- <- <-]].
  destruct (fd <? 0); [by intros [= <- <- <-]|].
  destruct (ivee_map_host_memory _ _ _ _ _ _ _) as [[o map] h1] eqn:Hmap.
  apply (load_inv_map s0 (set_entry_addr 0x400000 s) h0) in Hmap;
    [|by apply load_inv_entry].
  destruct o; by intros [= <- <- <-].
Qed.

Lemma sys_pread_live (f : file) (buf count offset n : Z) (h h' : host) (a : Z) :
  sys_pread f buf count offset h = (n, h') → live a h' → live a h.
Proof.
  unfold sys_pread. destruct (f_pread f count offset); intros [= <- <-].
  - by rewrite live_host_store.
  - done.
Qed.

Lemma load_segments_inv (f : file) (n : nat) (i res : Z) (s0 s s' : ivee)
    (h0 h h' : host) (x : loop_exit) :
  load_inv s0 h0 s h →
  load_segments f n i res s h = (x, s', h') →
  load_inv s0 h0 s' h'.
Proof.
  revert i s h. induction n as [|n IH]; intros i s h Hinv; simpl.
  - by intros [= <- <- <-].
  - destruct (gelf_getphdr f i) as [phdr|]; [|by intros [= <- <- <-]].
    case_bool_decide; [by apply IH|].
    destruct (ivee_map_host_memory _ _ _ _ _ _ _) as [[o map] h1] eqn:Hmap.
    apply (load_inv_map s0 s h0) in Hmap; [|done].
    destruct o as [mr|]; [|by intros [= <- <- <-]].
    destruct (sys_pread _ _ _ _ _) as [nbytes h2] eqn:Hread.
    assert (load_inv s0 h0 (set_memory_map map s) h2) as Hinv2.
    { destruct Hmap as (? & ? & Hlive). split_and!; [done..|].
      intros a Ha. apply Hlive. by eapply sys_pread_live. }
    case_bool_decide; [by intros [= <- <- <-]|by apply IH].
Qed.

Lemma load_elf64_inv (s0 s s' : ivee) (h0 h h' : host) (f : file) (res : Z) :
  load_inv s0 h0 s h → load_elf64 s f h = (res, s', h') → load_inv s0 h0 s' h'.
Proof.
  intros Hinv. unfold load_elf64, sys_open.
  destruct (elf_version f =? EV_NONE); [by intros [= <- <- <-]|].
  destruct (f_open f) as [fd|e]; simpl.
  2: { by intros [= <- <- <-]. }
  destruct (fd <? 0); [by intros [= <- <- <-]|].
  destruct (negb (elf_begin f)); [by intros [= <- <- <-]|].
  case_bool_decide; [by intros [= <- <- <-]|].
  destruct (gelf_getehdr f) as [ehdr|]; [|by intros [= <- <- <-]].
  case_bool_decide; [by intros [= <- <- <-]|].
  destruct (_ && _); [by intros [= <- <- <-]|].
  case_bool_decide; [by intros [= <- <- <-]|].
  destruct (load_segments _ _ _ _ _ _) as [[x s1] h1] eqn:Hsegs.
  apply (load_segments_inv _ _ _ _ s0 _ _ h0) in Hsegs; [|done].
  destruct x; intros [= <- <- <-]; [by apply load_inv_entry|done].
Qed.

Lemma load_any_inv (s0 s s' : ivee) (h0 h h' : host) (f : file) (res : Z) :
  load_inv s0 h0 s h → load_any s f h = (res, s', h') → load_inv s0 h0 s' h'.
Proof.
  intros Hinv. unfold load_any.
  destruct (load_elf64 s f h) as [[r s1] h1] eqn:Helf.
  apply (load_elf64_inv s0 _ _ h0) in Helf; [|done].
  destruct (r =? 0); [by intros [= <- <- <-]|].
  by apply load_bin_inv.
Qed.

Lemma init_guest_page_table_inv (s0 s s' : ivee) (h0 h h' : host) (res : Z) :
  load_inv s0 h0 s h →
  init_guest_page_table s h = (res, s', h') →
  load_inv s0 h0 s' h'.
Proof.
  intros Hinv. unfold init_guest_page_table.
  destruct (ivee_map_host_memory _ _ _ _ _ _ _) as [[o map] h1] eqn:Hmap.
  apply (load_inv_map s0 s h0) in Hmap as (Hcpu & Hflag & Hlive); [|done].
  destruct o as [r|]; intros [= <- <- <-]; split_and!; try done.
  simpl. intros a Ha. apply Hlive. by apply live_host_store in Ha.
Qed.

(** Dropping the memory map at the end of a failed load leaves no region
    and no mapping that was not live before the load. *)
Lemma drop_memory_map_clean (s0 s : ivee) (h0 h h' : host) (res : Z)
    (o : option ivee) :
  load_inv s0 h0 s h →
  drop_memory_map res s h = (res, o, h') →
  ∃ s', o = Some s'
        ∧ memory_map s' = []
        ∧ x86_cpu s' = x86_cpu s0
        ∧ should_terminate s' = should_terminate s0
        ∧ ∀ a, live a h' → live a h0.
Proof.
  intros (Hcpu & Hflag & Hlive). unfold drop_memory_map.
  destruct (ivee_free_memory_map (memory_map s) h) as [map h1] eqn:Hfree.
  intros [= <- <-]. eexists. split; [done|].
  assert (map = []) as -> by (by injection Hfree).
  split_and!; [done..|]. intros a Ha.
  replace h1 with (ivee_free_memory_map (memory_map s) h).2 in Ha
    by (by rewrite Hfree).
  apply ivee_free_memory_map_live in Ha as [Ha Hnot].
  destruct (Hlive a Ha) as [?|(r & Hr & Heq)]; [done|].
  by destruct (Hnot r Hr).
Qed.

(** C5, as the code has it.  When [ivee_load_executable] fails past its
    argument and access checks (in a loader, in the page-table build or
    in the install of the memory map), the memory map is torn down before
    the status is returned: the session has no region left, no host
    mapping made during the load is still live, and the CPU image and the
    termination flag are those the session had before the call. *)
Theorem load_failure_drops_map (s : ivee) (f : file)
    (format : ivee_executable_format_t) (h h' : host) (res : Z)
    (o : option ivee) :
  ivee_load_executable (Some s) (Some f) format h = (res, o, h') →
  res ≠ 0 →
  f_access f = Ok () →
  ∃ s', o = Some s'
        ∧ memory_map s' = []
        ∧ x86_cpu s' = x86_cpu s
        ∧ should_terminate s' = should_terminate s
        ∧ ∀ a, live a h' → live a h.
Proof.
  intros Hload Hres Hacc. unfold ivee_load_executable in Hload.
  rewrite Hacc in Hload.
  destruct (match format with
            | IVEE_EXEC_BIN => _ | IVEE_EXEC_ELF64 => _ | IVEE_EXEC_ANY => _
            | IVEE_EXEC_other _ => _ end) as [[r1 s1] h1] eqn:Hloader.
  assert (load_inv s h s1 h1) as Hinv1.
  { destruct format; [by eapply load_bin_inv, Hloader; apply load_inv_start
                     |by eapply load_elf64_inv, Hloader; apply load_inv_start
                     |by eapply load_any_inv, Hloader; apply load_inv_start|].
    injection Hloader as <- <- <-. apply load_inv_start. }
  case_bool_decide.
  { pose proof Hload as Hd. unfold drop_memory_map in Hd.
    destruct (ivee_free_memory_map _ _) in Hd. injection Hd as <- _ _.
    eapply (drop_memory_map_clean s s1 h h1); [exact Hinv1|exact Hload]. }
  destruct (init_guest_page_table s1 h1) as [[r2 s2] h2] eqn:Hpt.
  apply (init_guest_page_table_inv s _ _ h) in Hpt; [|done].
  case_bool_decide.
  { pose proof Hload as Hd. unfold drop_memory_map in Hd.
    destruct (ivee_free_memory_map _ _) in Hd. injection Hd as <- _ _.
    eapply (drop_memory_map_clean s s2 h h2); [exact Hpt|exact Hload]. }
  destruct (ivee_set_kvm_memory_map _ _) as [r3 v].
  case_bool_decide.
  { pose proof Hload as Hd. unfold drop_memory_map in Hd.
    destruct (ivee_free_memory_map _ _) in Hd. injection Hd as <- _ _.
    eapply (drop_memory_map_clean s (set_vm v s2) h h2); [exact Hpt|exact Hload]. }
  injection Hload as <- _ _. done.
Qed.
End LoadInvariant.

(** ** Teardown on the samples *)

Lemma live_by_lookup (a : Z) (h : host) :
  match mappings h !! a with Some _ => true | None => false end = true →
  live a h.
Proof. unfold live. destruct (mappings h !! a); [eauto|done]. Qed.

(** The flat binary loads, but the driver refuses the memory map with
    [-EIO]: the session is left without regions. *)
Lemma load_failure_drops_map_witness :
  ∃ s',
    (sample_load guest_rbp 0 (- EIO) flat_file IVEE_EXEC_BIN).1.2 = Some s'
    ∧ memory_map s' = [].
Proof.
  pose (x := sample_load guest_rbp 0 (- EIO) flat_file IVEE_EXEC_BIN).
  destruct (load_failure_drops_map (H := sample_headers)
              (sample_session guest_rbp 0 (- EIO)) flat_file IVEE_EXEC_BIN
              (sample_created guest_rbp 0 (- EIO)).2 x.2 x.1.1 x.1.2)
    as (s' & Hs' & Hmap & _).
  - change (x = (x.1.1, x.1.2, x.2)). by destruct x as [[? ?] ?].
  - by vm_compute.
  - reflexivity.
  - exists s'. by split.
Defined.

(** C5, as stated, fails on the code: after the failed load above the
    session is not back in its post-create state.  [entry_addr] was 0 and
    [gpt_mr] null after [ivee_create]; now [entry_addr] is 0x400000, as
    [load_bin] wrote it, and [gpt_mr] still names the page-table region,
    whose host mapping is gone. *)
Lemma load_failure_keeps_fields :
  ∃ s' h' r,
    sample_load guest_rbp 0 (- EIO) flat_file IVEE_EXEC_BIN = (- EIO, Some s', h')
    ∧ - EIO ≠ 0
    ∧ entry_addr (sample_session guest_rbp 0 (- EIO)) = 0
    ∧ gpt_mr (sample_session guest_rbp 0 (- EIO)) = None
    ∧ entry_addr s' = 0x400000
    ∧ gpt_mr s' = Some r
    ∧ ¬ live (hva r) h'
    ∧ s' ≠ sample_session guest_rbp 0 (- EIO).
Proof.
  eexists _, _, _. split_and!.
  - vm_compute. reflexivity.
  - done.
  - reflexivity.
  - reflexivity.
  - reflexivity.
  - reflexivity.
  - unfold live. vm_compute. by intros [? ?].
  - intros Heq. apply (f_equal entry_addr) in Heq. by vm_compute in Heq.
Qed.

Section Teardown.
Context `{headers} `{kvm_driver}.

Lemma ivee_destroy_null (h : host) : ivee_destroy None h = h.
Proof. done. Qed.

(** [ivee_destroy] releases no host mapping. *)
Lemma ivee_destroy_mappings (ivee_p : option ivee) (h : host) :
  mappings (ivee_destroy ivee_p h) = mappings h.
Proof. destruct ivee_p as [s|]; [|done]. simpl. by destruct (vm s). Qed.

(** A failed [ivee_create] gives back what it acquired: the block, the VM
    handle if there was one, and the caller's variable is not written. *)
Lemma ivee_create_failure_releases (caps : Z) (out : option ivee) (h h' : host)
    (res : Z) (o : option (option ivee)) :
  ivee_create caps (Some out) h = (res, o, h') →
  res ≠ 0 →
  o = Some out
  ∧ live_sessions h' = live_sessions h
  ∧ live_vms h' = live_vms h
  ∧ mappings h' = mappings h.
Proof.
  unfold ivee_create, ivee_zalloc, ivee_create_kvm_vm, next_grant.
  case_bool_decide; [by intros [= <- <- <-]|].
  destruct (grants h) as [|[] rest]; simpl; try by intros [= <- <- <-].
  all: case_bool_decide; [by intros [= <- <- <-]|].
  all: destruct kvm_new_vm; simpl; [|by intros [= <- <- <-]].
  all: case_bool_decide; intros [= <- <- <-]; done.
Qed.
End Teardown.

(** C4 fails on the code.  A session is created, the flat binary is loaded
    and the session is destroyed: the VM handle and the session block are
    released, but the host mappings of both regions of the memory map, the
    image and the page tables, are still live. *)
Lemma destroy_leaves_mappings :
  let s := sample_loaded guest_rbp 0 0 in
  let h' := ivee_destroy (Some s) (sample_loaded_host guest_rbp 0 0) in
  hva <$> memory_map s = [0x7f0000000000; 0x7f0000001000]
  ∧ live_vms h' = 0%nat
  ∧ live_sessions h' = 0%nat
  ∧ live 0x7f0000000000 h'
  ∧ live 0x7f0000001000 h'.
Proof.
  split_and!; [by vm_compute..| |];
    apply live_by_lookup; vm_compute; reflexivity.
Qed.

(** ** The ELF loader on a short read *)

Section ShortRead.
Context `{headers} `{kvm_driver}.

Lemma host_mmap_errno (size : Z) (image : words) (h h' : host) (a : Z) :
  host_mmap size image h = (Some a, h') → errno h' = errno h.
Proof.
  unfold host_mmap, next_grant. destruct (size <=? 0); [done|].
  destruct (grants h) as [|[] rest]; by intros [= <- <-].
Qed.

Lemma ivee_map_host_memory_errno (map map' : ivee_memory_map) (gpa size : Z)
    (fd : option words) (ro : bool) (p : Z) (h h' : host)
    (r : ivee_guest_memory_region) :
  ivee_map_host_memory map gpa size fd ro p h = (Some r, map', h') →
  errno h' = errno h.
Proof.
  unfold ivee_map_host_memory. destruct (negb _); [done|].
  destruct (existsb _ _); [done|].
  destruct (host_mmap _ _ _) as [[a|] h1] eqn:Hmmap; [|done].
  intros [= <- <- <-]. by apply host_mmap_errno in Hmmap.
Qed.

(** When the read of a LOAD segment transfers fewer bytes than
    [p_filesz], the loop is left through [error_out] with [res = -errno],
    and errno is what it was before the segment was mapped: a short read
    does not set it. *)
Lemma load_segments_short_read (f : file) (n : nat) (i res k : Z) (s : ivee)
    (h h1 : host) (phdr : GElf_Phdr) (mr : ivee_guest_memory_region)
    (map' : ivee_memory_map) :
  gelf_getphdr f i = Some phdr →
  p_type phdr = PT_LOAD →
  ivee_map_host_memory (memory_map s) (p_vaddr phdr) (p_memsz phdr) None false
                       (segment_prot (p_flags phdr)) h = (Some mr, map', h1) →
  f_pread f (p_filesz phdr) (p_offset phdr) = Ok k →
  0 ≤ k < p_filesz phdr →
  p_filesz phdr < 2 ^ 64 →
  ∃ h', load_segments f (S n) i res s h
        = (error_out (- errno h), set_memory_map map' s, h').
Proof.
  intros Hphdr Htype Hmap Hread Hk Hsz. simpl. rewrite Hphdr.
  rewrite bool_decide_eq_false_2 by (by intros Hne).
  rewrite Hmap. unfold sys_pread. rewrite Hread.
  rewrite bool_decide_eq_true_2
    by (unfold wrap64; rewrite Z.mod_small by lia; lia).
  apply ivee_map_host_memory_errno in Hmap.
  eexists. unfold host_store, set_mappings. simpl. by rewrite Hmap.
Qed.
End ShortRead.

(** C8 fails on the code.  The ELF file is cut short, so the read of its
    LOAD segment transfers 0x800 of the 0x1000 bytes asked for.  No call has
    failed in the process, errno is 0, and [load_elf64] returns [-errno],
    which is 0: the short read is reported as success.  The entry point is
    not recorded, and [ivee_load_executable] succeeds on the file. *)
Lemma short_read_returns_success :
  let s := sample_session guest_rbp 0 0 in
  let h := (sample_created guest_rbp 0 0).2 in
  f_pread elf_truncated 0x1000 0x1000 = Ok 0x800
  ∧ errno h = 0
  ∧ (load_elf64 (H := sample_headers) s elf_truncated h).1.1 = 0
  ∧ entry_addr (load_elf64 (H := sample_headers) s elf_truncated h).1.2 = 0
  ∧ (sample_load guest_rbp 0 0 elf_truncated IVEE_EXEC_ELF64).1.1 = 0.
Proof. split_and!; by vm_compute. Qed.

(** C3 fails on the code.  The read of the ELF file's LOAD segment fails
    with EIO after the segment's region was mapped at frame 0x10.
    [load_elf64] returns [-EIO] with that region still in the memory map and
    its host mapping live, and [load_any] starts [load_bin] on exactly that
    session and host; the load then succeeds with the stray region among
    the three of the final memory map. *)
Lemma elf_attempt_leaves_region :
  let s := sample_session guest_rbp 0 0 in
  let h := (sample_created guest_rbp 0 0).2 in
  ∃ s1 h1,
    load_elf64 (H := sample_headers) s elf_unreadable h = (- EIO, s1, h1)
    ∧ memory_map s = []
    ∧ memory_map s1
      = [ {| first_gfn := 0x10; last_gfn := 0x10; hva := 0x7f0000000000; prot := 5 |} ]
    ∧ live 0x7f0000000000 h1
    ∧ load_any (H := sample_headers) s elf_unreadable h
      = load_bin (H := sample_headers) s1 elf_unreadable h1
    ∧ (sample_load guest_rbp 0 0 elf_unreadable IVEE_EXEC_ANY).1.1 = 0
    ∧ first_gfn <$> default [] (memory_map <$>
        (sample_load guest_rbp 0 0 elf_unreadable IVEE_EXEC_ANY).1.2)
      = [0x10; 0x400; 0x3FDFD].
Proof.
  intros s h.
  assert ((load_elf64 (H := sample_headers) s elf_unreadable h).1.1 = - EIO)
    as Hres by (by vm_compute).
  assert (memory_map (load_elf64 (H := sample_headers) s elf_unreadable h).1.2
          = [ {| first_gfn := 0x10; last_gfn := 0x10; hva := 0x7f0000000000;
                 prot := 5 |} ]) as Hmap by (by vm_compute).
  assert (live 0x7f0000000000
            (load_elf64 (H := sample_headers) s elf_unreadable h).2) as Hlive
    by (apply live_by_lookup; by vm_compute).
  unfold load_any.
  destruct (load_elf64 (H := sample_headers) s elf_unreadable h) as [[r s1] h1].
  simpl in *. subst r. exists s1, h1.
  split_and!; try done; by vm_compute.
Qed.

(** * Further properties *)

(** ** The stores of the page-table builder *)

Lemma stores_congr {A : Type} (k v : A → Z) (l : list A) (m m' : words) (j : Z) :
  m j = m' j →
  foldl (λ m x, <[k x := v x]> m) m l j = foldl (λ m x, <[k x := v x]> m) m' l j.
Proof.
  intros Hj. induction l as [|a l IH] using rev_ind; [done|].
  rewrite !foldl_snoc. destruct (decide (k a = j)) as [<-|Hne].
  - by rewrite !fn_lookup_insert.
  - by rewrite !fn_lookup_insert_ne.
Qed.

Section BuilderStores.
Context `{headers}.

(** The slot of a frame depends on the low 18 bits of its number only. *)
Lemma pte_slot_mod (gfn : Z) :
  pte_slot gfn = pte_pages_base + gfn mod IVEE_GUEST_PAGES_COUNT.
Proof.
  unfold pte_slot. change 0x1FF with (Z.ones 9).
  rewrite !Z.land_ones, Z.shiftr_div_pow2 by lia.
  change (2 ^ 9) with 512. change X86_PTES_PER_PAGE with 512.
  change IVEE_GUEST_PAGES_COUNT with (512 * 512).
  rewrite Z.rem_mul_r by lia. lia.
Qed.

Lemma pte_slot_range (gfn : Z) :
  pte_pages_base ≤ pte_slot gfn < pte_pages_base + IVEE_GUEST_PAGES_COUNT.
Proof.
  rewrite pte_slot_mod.
  pose proof (Z.mod_pos_bound gfn IVEE_GUEST_PAGES_COUNT).
  change IVEE_GUEST_PAGES_COUNT with 262144 in *. lia.
Qed.

(** Outside the three written places the builder stores nothing. *)
Lemma write_page_table_outside (map : ivee_memory_map) (m : words) (j : Z) :
  j ≠ pml4_off → j ≠ pdpe_off →
  ¬ (pde_off ≤ j < pte_pages_base + IVEE_GUEST_PAGES_COUNT) →
  write_page_table map m j = m j.
Proof.
  intros H0 H1 Hout. unfold write_page_table. rewrite map_regions_frames.
  rewrite stores_miss.
  2: { intros x _. pose proof (pte_slot_range x.1). table_offsets. lia. }
  unfold memset0. rewrite bool_decide_eq_false_2 by (table_offsets; lia).
  unfold write_pdes. rewrite stores_miss.
  2: { intros i Hi. apply elem_of_seqZ in Hi. table_offsets. lia. }
  by rewrite !fn_lookup_insert_ne by done.
Qed.

(** At the written places the result does not depend on what was there. *)
Lemma write_page_table_written (map : ivee_memory_map) (m m' : words) (j : Z) :
  j = pml4_off ∨ j = pdpe_off
  ∨ pde_off ≤ j < pte_pages_base + IVEE_GUEST_PAGES_COUNT →
  write_page_table map m j = write_page_table map m' j.
Proof.
  intros Hj. unfold write_page_table. rewrite !map_regions_frames.
  apply stores_congr. unfold memset0. case_bool_decide as Hset; [done|].
  unfold write_pdes.
  destruct (decide (pde_off ≤ j < pte_pages_base)) as [Hpde|Hno].
  - rewrite !(stores_hit _ _ _ _ j (pde_entry (j - pde_off))); [done| | | |].
    all: try (exists (j - pde_off); split; [apply elem_of_seqZ; table_offsets|]; lia).
    all: intros y _ Hy; f_equal; lia.
  - rewrite !stores_miss.
    2,3: intros i Hi; apply elem_of_seqZ in Hi; table_offsets; lia.
    destruct (decide (j = pdpe_off)) as [->|Hne1];
      [by rewrite !fn_lookup_insert|].
    destruct (decide (j = pml4_off)) as [->|Hne0].
    + rewrite !(fn_lookup_insert_ne _ pdpe_off) by done.
      by rewrite !fn_lookup_insert.
    + table_offsets. lia.
Qed.

(** X1.  Every store of the page-table builder lands inside the 515 pages
    it mapped, whatever the memory map holds (also for frame numbers
    beyond the low 1 GiB, whose slot index keeps the low 18 bits only):
    a word that differs after the build is PML4[0], PDPT[0] or lies in the
    directory page or the 512 table pages, which end with the region. *)
Theorem page_table_stores_in_bounds (map : ivee_memory_map) (m : words) (j : Z) :
  write_page_table map m j ≠ m j →
  (j = pml4_off ∨ j = pdpe_off
   ∨ pde_off ≤ j < pte_pages_base + IVEE_GUEST_PAGES_COUNT)
  ∧ 0 ≤ j < IVEE_PAGE_TABLE_SIZE / 8
  ∧ pte_pages_base + IVEE_GUEST_PAGES_COUNT = IVEE_PAGE_TABLE_SIZE / 8.
Proof.
  intros Hne.
  assert (j = pml4_off ∨ j = pdpe_off
          ∨ pde_off ≤ j < pte_pages_base + IVEE_GUEST_PAGES_COUNT) as Hj.
  { destruct (decide (j = pml4_off)); [by left|].
    destruct (decide (j = pdpe_off)); [by right; left|].
    destruct (decide (pde_off ≤ j < pte_pages_base + IVEE_GUEST_PAGES_COUNT));
      [by right; right|].
    by destruct Hne; apply write_page_table_outside. }
  split; [done|]. change (IVEE_PAGE_TABLE_SIZE / 8) with 263680.
  table_offsets. lia.
Qed.

(** X2.  The builder is idempotent: building twice for the same memory
    map leaves every word as the first build left it. *)
Theorem page_table_build_idempotent (map : ivee_memory_map) (m : words) (j : Z) :
  write_page_table map (write_page_table map m) j = write_page_table map m j.
Proof.
  destruct (decide (j = pml4_off ∨ j = pdpe_off
                    ∨ pde_off ≤ j < pte_pages_base + IVEE_GUEST_PAGES_COUNT))
    as [Hj|Hj].
  - by apply write_page_table_written.
  - rewrite write_page_table_outside by tauto. done.
Qed.
End BuilderStores.

(** Rebuilding changes PML4[0] from nothing to the PDPT pointer. *)
Lemma page_table_stores_in_bounds_witness :
  (0 = pml4_off ∨ 0 = pdpe_off
   ∨ pde_off ≤ 0 < pte_pages_base + IVEE_GUEST_PAGES_COUNT)
  ∧ 0 ≤ 0 < IVEE_PAGE_TABLE_SIZE / 8
  ∧ pte_pages_base + IVEE_GUEST_PAGES_COUNT = IVEE_PAGE_TABLE_SIZE / 8.
Proof.
  apply (page_table_stores_in_bounds (H := sample_headers) [] (λ _, 0) 0).
  vm_compute. discriminate.
Defined.

(** ** What a successful load leaves *)

Section LoadMore.
Context `{headers} `{kvm_driver}.

Lemma ivee_map_host_memory_region (map map' : ivee_memory_map) (gpa size : Z)
    (fd : option words) (ro : bool) (p : Z) (h h' : host)
    (r : ivee_guest_memory_region) :
  ivee_map_host_memory map gpa size fd ro p h = (Some r, map', h') →
  first_gfn r = Z.shiftr gpa X86_PAGE_SHIFT
  ∧ last_gfn r = Z.shiftr (gpa + page_round_up size - 1) X86_PAGE_SHIFT
  ∧ prot r = p
  ∧ r ∈ map'
  ∧ (∀ x, x ∈ map → x ∈ map')
  ∧ mappings h' !! hva r = Some (default (λ _, 0) fd).
Proof.
  intros Hmap. pose proof Hmap as Hlive.
  apply ivee_map_host_memory_some in Hlive as (Hlive & _ & _).
  revert Hmap. unfold ivee_map_host_memory. destruct (negb _); [done|].
  destruct (existsb _ _); [done|].
  destruct (host_mmap _ _ _) as [[a|] h1]; [|done].
  intros [= <- <- <-]. simpl. split_and!; try done.
  - apply elem_of_insert_sorted. by left.
  - intros x Hx. apply elem_of_insert_sorted. by right.
Qed.

(** The steps of a successful [ivee_load_executable]. *)
Lemma ivee_load_executable_steps (s s' : ivee) (f : file)
    (format : ivee_executable_format_t) (h h' : host) :
  ivee_load_executable (Some s) (Some f) format h = (0, Some s', h') →
  ∃ s1 h1 s2 v,
    f_access f = Ok ()
    ∧ match format with
      | IVEE_EXEC_BIN => load_bin s f h
      | IVEE_EXEC_ELF64 => load_elf64 s f h
      | IVEE_EXEC_ANY => load_any s f h
      | IVEE_EXEC_other _ => (- ENOTSUP, s, h)
      end = (0, s1, h1)
    ∧ init_guest_page_table s1 h1 = (0, s2, h')
    ∧ ivee_set_kvm_memory_map (vm s2) (memory_map s2) = (0, v)
    ∧ s' = set_x86_cpu (init_x86_cpu (x86_cpu s2)) (set_vm v s2).
Proof.
  unfold ivee_load_executable, drop_memory_map, ivee_free_memory_map.
  destruct (f_access f) as [[]|]; [|intros [=]].
  destruct (match format with
            | IVEE_EXEC_BIN => _ | IVEE_EXEC_ELF64 => _ | IVEE_EXEC_ANY => _
            | IVEE_EXEC_other _ => _ end) as [[res s1] h1].
  case_bool_decide as Hres; [by intros [= ? ? ?]|].
  destruct (init_guest_page_table s1 h1) as [[res2 s2] h2] eqn:Hpt.
  case_bool_decide as Hres2; [by intros [= ? ? ?]|].
  destruct (ivee_set_kvm_memory_map _ _) as [res3 v] eqn:Hset.
  case_bool_decide as Hres3; [by intros [= ? ? ?]|].
  intros [= <- <-]. exists s1, h1, s2, v.
  assert (res = 0) as -> by (destruct (decide (res = 0)); done).
  assert (res2 = 0) as -> by (destruct (decide (res2 = 0)); done).
  assert (res3 = 0) as -> by (destruct (decide (res3 = 0)); done).
  by rewrite Hpt, Hset.
Qed.

Lemma init_guest_page_table_region (s s' : ivee) (h h' : host) :
  init_guest_page_table s h = (0, s', h') →
  ∃ r, gpt_mr s' = Some r
       ∧ r ∈ memory_map s'
       ∧ first_gfn r = Z.shiftr IVEE_PML4_BASE_GPA X86_PAGE_SHIFT
       ∧ last_gfn r = IVEE_GUEST_PAGES_COUNT - 1
       ∧ prot r = Z.lor IVEE_READ IVEE_WRITE
       ∧ vm s' = vm s ∧ entry_addr s' = entry_addr s
       ∧ (∀ x, x ∈ memory_map s → x ∈ memory_map s').
Proof.
  unfold init_guest_page_table.
  destruct (ivee_map_host_memory _ _ _ _ _ _ _) as [[[r|] map] h1] eqn:Hmap;
    [|done].
  intros [= <- <-]. exists r.
  apply ivee_map_host_memory_region in Hmap
    as (Hfirst & Hlast & Hprot & Hin & Hsub & _).
  split_and!; done.
Qed.

(** X3.  After a successful [ivee_load_executable] the page-table region
    is one of the regions of the memory map: it spans the last 515 frames
    of the low 1 GiB, is readable and writable, and its host mapping is
    live.  The memory map the driver was given to install, with status 0,
    is the session's final one, page tables included, and what the driver
    returned is the session's VM. *)
Theorem load_installs_page_tables (s s' : ivee) (f : file)
    (format : ivee_executable_format_t) (h h' : host) :
  ivee_load_executable (Some s) (Some f) format h = (0, Some s', h') →
  ∃ r v0,
    gpt_mr s' = Some r
    ∧ r ∈ memory_map s'
    ∧ first_gfn r = IVEE_GUEST_PAGES_COUNT - 515
    ∧ last_gfn r = IVEE_GUEST_PAGES_COUNT - 1
    ∧ prot r = Z.lor IVEE_READ IVEE_WRITE
    ∧ live (hva r) h'
    ∧ ivee_set_kvm_memory_map v0 (memory_map s') = (0, vm s').
Proof.
  intros Hload.
  apply ivee_load_executable_steps in Hload
    as (s1 & h1 & s2 & v & _ & _ & Hpt & Hset & ->).
  pose proof Hpt as Hreg.
  apply init_guest_page_table_region in Hreg
    as (r & Hr & Hin & Hfirst & Hlast & Hprot & _).
  apply init_guest_page_table_ok in Hpt as (r' & Hr' & Hlive).
  assert (r' = r) as -> by congruence.
  exists r, (vm s2). split_and!; try done.
  unfold live. rewrite Hlive. eauto.
Qed.

(** X4.  After a successful [ivee_load_executable] the top two levels hold
    one entry each: entries 1 to 511 of the PML4 page and of the PDPT page
    are zero, so nothing above the low 1 GiB is mapped. *)
Theorem load_single_top_entries (s s' : ivee) (f : file)
    (format : ivee_executable_format_t) (h h' : host) :
  ivee_load_executable (Some s) (Some f) format h = (0, Some s', h') →
  ∃ r pt,
    gpt_mr s' = Some r
    ∧ mappings h' !! hva r = Some pt
    ∧ ∀ i, 1 ≤ i < X86_PTES_PER_PAGE →
           pt (pml4_off + i) = 0 ∧ pt (pdpe_off + i) = 0.
Proof.
  intros Hload.
  apply ivee_load_executable_steps in Hload
    as (s1 & h1 & s2 & v & _ & _ & Hpt & _ & ->).
  apply init_guest_page_table_ok in Hpt as (r & Hr & Hlive).
  exists r, (write_page_table (memory_map s2) (λ _, 0)).
  split_and!; [done..|]. intros i Hi.
  rewrite !write_page_table_outside by (table_offsets; lia). done.
Qed.
End LoadMore.

(** The loaded flat binary: its page-table region and the map installed. *)
Lemma load_installs_page_tables_witness :
  ∃ r v0,
    gpt_mr (sample_loaded guest_rbp 0 0) = Some r
    ∧ first_gfn r = 0x3FDFD
    ∧ last_gfn r = 0x3FFFF
    ∧ ivee_set_kvm_memory_map (kvm_driver := sample_driver guest_rbp 0 0) v0
        (memory_map (sample_loaded guest_rbp 0 0))
      = (0, vm (sample_loaded guest_rbp 0 0)).
Proof.
  destruct (load_installs_page_tables (H := sample_headers)
              (sample_session guest_rbp 0 0) (sample_loaded guest_rbp 0 0)
              flat_file IVEE_EXEC_BIN (sample_created guest_rbp 0 0).2
              (sample_loaded_host guest_rbp 0 0))
    as (r & v0 & Hr & _ & Hfirst & Hlast & _ & _ & Hset).
  - apply sample_load_flat.
  - exists r, v0. by split_and!.
Defined.

(** The loaded flat binary: PML4[1] and PDPT[511] are zero. *)
Lemma load_single_top_entries_witness :
  ∃ pt,
    mappings (sample_loaded_host guest_rbp 0 0) !! 0x7f0000001000 = Some pt
    ∧ pt 1 = 0
    ∧ pt (512 + 511) = 0.
Proof.
  destruct (load_single_top_entries (H := sample_headers)
              (sample_session guest_rbp 0 0) (sample_loaded guest_rbp 0 0)
              flat_file IVEE_EXEC_BIN (sample_created guest_rbp 0 0).2
              (sample_loaded_host guest_rbp 0 0))
    as (r & pt & Hr & Hpt & Hzero).
  - apply sample_load_flat.
  - assert (hva r = 0x7f0000001000) as Hhva.
    { revert Hr. vm_compute. by intros [= <-]. }
    rewrite Hhva in Hpt. exists pt. split_and!; [done| |].
    + by destruct (Hzero 1) as [? _].
    + by destruct (Hzero 511) as [_ ?].
Defined.

(** ** Protections, from the loaders to the page tables *)

Section Protections.
Context `{headers}.



End Protections.


(** ** The flat loader *)

Lemma ivee_map_host_memory_none (map map' : ivee_memory_map) (gpa size : Z)
    (fd : option words) (ro : bool) (p : Z) (h h' : host) :
  ivee_map_host_memory map gpa size fd ro p h = (None, map', h') →
  map' = map ∧ mappings h' = mappings h.
Proof.
  unfold ivee_map_host_memory. destruct (negb _); [by intros [= <- <-]|].
  destruct (existsb _ _); [by intros [= <- <-]|].
  unfold host_mmap, next_grant. destruct (_ <=? 0); [by intros [= <- <-]|].
  destruct (grants h) as [|[] rest]; by intros [= <- <-].
Qed.

Lemma flat_image_last_frame (size : Z) :
  0 < size →
  Z.shiftr (0x400000 + page_round_up size - 1) X86_PAGE_SHIFT
  = 0x3FF + (size + 4095) / 4096.
Proof.
  intros Hsize. unfold page_round_up. change X86_PAGE_SIZE with 4096.
  change X86_PAGE_SHIFT with 12. rewrite Z.shiftr_div_pow2 by lia.
  change (2 ^ 12) with 4096. replace (size + 4096 - 1) with (size + 4095) by lia.
  symmetry. apply (Z.div_unique _ _ _ 4095); lia.
Qed.

Section FlatLoader.
Context `{headers} `{kvm_driver}.


(** X7.  A failed [load_bin] maps nothing: the memory map and the live
    host mappings are as before, and so are the VM, the CPU image,
    [gpt_mr] and the flag.  Its status is -1 when [stat] or [open] fails
    (or the negative descriptor [open] answered) and [-EINVAL] for an
    empty file, all with the session as it was, and [-ENOMEM], with the
    entry point already set to 0x400000, when the region cannot be
    mapped. *)
Theorem flat_load_failure (s s' : ivee) (f : file) (h h' : host) (res : Z) :
  load_bin s f h = (res, s', h') →
  res ≠ 0 →
  memory_map s' = memory_map s
  ∧ mappings h' = mappings h
  ∧ same_but_map_entry s s'
  ∧ (res = -1 ∧ s' = s ∧ ((∃ e, f_stat f = Fail e) ∨ (∃ e, f_open f = Fail e))
     ∨ res = - EINVAL ∧ s' = s ∧ (∃ size, f_stat f = Ok size ∧ wrap64 size = 0)
     ∨ res = - ENOMEM ∧ entry_addr s' = 0x400000
     ∨ res < 0 ∧ s' = s ∧ f_open f = Ok res).
Proof.
  unfold load_bin, sys_stat, sys_open.
  destruct (f_stat f) as [size|e]; simpl.
  2: { intros [= <- <- <-] _. split_and!; try done. left. eauto. }
  destruct (Z.eqb_spec (wrap64 size) 0) as [Hsize|Hsize].
  { intros [= <- <- <-] _. split_and!; try done. right. left. eauto. }
  destruct (f_open f) as [fd|e].
  2: { intros [= <- <- <-] _. split_and!; try done. left. eauto. }
  destruct (Z.ltb_spec fd 0) as [Hfd|Hfd].
  { intros [= <- <- <-] _. split_and!; try done. right. right. right. done. }
  destruct (ivee_map_host_memory _ _ _ _ _ _ _) as [[[r|] map] h1] eqn:Hmap.
  { by intros [= <- <- <-]. }
  intros [= <- <- <-] _.
  apply ivee_map_host_memory_none in Hmap as [-> Hmaps].
  split_and!; try done. right. right. left. done.
Qed.
End FlatLoader.


(** An empty file is refused with [-EINVAL]. *)
Lemma flat_load_failure_witness :
  ∃ s' h',
    load_bin (H := sample_headers) (sample_session guest_rbp 0 0) empty_file
             (sample_created guest_rbp 0 0).2 = (- EINVAL, s', h')
    ∧ memory_map s' = memory_map (sample_session guest_rbp 0 0).
Proof.
  pose (x := load_bin (H := sample_headers) (sample_session guest_rbp 0 0)
               empty_file (sample_created guest_rbp 0 0).2).
  assert (x = (- EINVAL, x.1.2, x.2)) as Hx.
  { assert (x.1.1 = - EINVAL) as Hres by (by vm_compute).
    destruct x as [[? ?] ?]. simpl in *. by subst. }
  destruct (flat_load_failure (H := sample_headers) _ _ _ _ _ _ Hx)
    as (Hmap & _); [done|].
  by exists x.1.2, x.2.
Defined.

(** ** The ELF loader *)

Lemma ivee_map_host_memory_keeps_live (map map' : ivee_memory_map) (gpa size : Z)
    (fd : option words) (ro : bool) (p : Z) (h h' : host)
    (o : option ivee_guest_memory_region) (a : Z) :
  ivee_map_host_memory map gpa size fd ro p h = (o, map', h') →
  live a h → live a h'.
Proof.
  unfold ivee_map_host_memory. destruct (negb _); [by intros [= <- <- <-]|].
  destruct (existsb _ _); [by intros [= <- <- <-]|].
  unfold host_mmap, next_grant. destruct (_ <=? 0); [by intros [= <- <- <-]|].
  destruct (grants h) as [|[] rest]; intros [= <- <- <-]; unfold live; simpl;
    try done.
  all: rewrite lookup_insert; case_decide; eauto.
Qed.

Section ElfLoader.
Context `{headers} `{kvm_driver}.

(** The program-header loop only adds regions and mappings, and leaves the
    rest of the session alone. *)
Lemma load_segments_grows (f : file) (n : nat) (i res : Z) (s s' : ivee)
    (h h' : host) (x : loop_exit) :
  load_segments f n i res s h = (x, s', h') →
  same_but_map s s'
  ∧ (∀ r, r ∈ memory_map s → r ∈ memory_map s')
  ∧ (∀ a, live a h → live a h').
Proof.
  revert i s h. induction n as [|n IH]; intros i s h; simpl.
  - intros [= <- <- <-]. by split_and!.
  - destruct (gelf_getphdr f i) as [phdr|];
      [|intros [= <- <- <-]; by split_and!].
    case_bool_decide; [by apply IH|].
    destruct (ivee_map_host_memory _ _ _ _ _ _ _) as [[o map] h1] eqn:Hmap.
    pose proof (ivee_map_host_memory_tracks _ _ _ _ _ _ _ _ _ _ Hmap) as [Hsub _].
    assert (∀ a, live a h → live a h1) as Hl1
      by (intros a; by eapply ivee_map_host_memory_keeps_live).
    destruct o as [mr|]; [|intros [= <- <- <-]; by split_and!].
    destruct (sys_pread _ _ _ _ _) as [nbytes h2] eqn:Hread.
    assert (∀ a, live a h1 → live a h2) as Hl2.
    { intros a. revert Hread. unfold sys_pread.
      destruct (f_pread _ _ _); intros [= <- <-]; [|done].
      by rewrite live_host_store. }
    case_bool_decide; [intros [= <- <- <-]; split_and!; auto; done|].
    intros Hrest. apply IH in Hrest as (Hsame & Hsub' & Hl').
    split_and!; [done| |]; auto.
Qed.

(** X8.  When the loop over the program headers runs to its end, every
    header of type LOAD has its region in the memory map: based at the
    frame of [p_vaddr], spanning [p_memsz] rounded up to pages, with the
    protection derived from [p_flags] and a live host mapping.  Headers of
    other types add nothing: the VM, the CPU image, the entry point,
    [gpt_mr] and the flag are as before and earlier regions stay. *)
Theorem load_segments_maps_every_load (f : file) (n : nat) (i res : Z)
    (s s' : ivee) (h h' : host) :
  load_segments f n i res s h = (loop_done, s', h') →
  same_but_map s s'
  ∧ (∀ r, r ∈ memory_map s → r ∈ memory_map s')
  ∧ ∀ k phdr,
      i ≤ k < i + Z.of_nat n →
      gelf_getphdr f k = Some phdr →
      p_type phdr = PT_LOAD →
      ∃ r, r ∈ memory_map s'
           ∧ first_gfn r = Z.shiftr (p_vaddr phdr) X86_PAGE_SHIFT
           ∧ last_gfn r
             = Z.shiftr (p_vaddr phdr + page_round_up (p_memsz phdr) - 1)
                        X86_PAGE_SHIFT
           ∧ prot r = segment_prot (p_flags phdr)
           ∧ live (hva r) h'.
Proof.
  intros Hloop. pose proof (load_segments_grows _ _ _ _ _ _ _ _ _ Hloop)
    as (Hsame & Hsub & _).
  split_and!; [done..|]. clear Hsame Hsub.
  revert i s h Hloop. induction n as [|n IH];
    intros i s h Hloop k phdr Hk Hphdr Htype; [lia|].
  simpl in Hloop.
  destruct (gelf_getphdr f i) as [ph|] eqn:Hph; [|done].
  case_bool_decide as Hty.
  - destruct (decide (k = i)) as [->|Hne]; [congruence|].
    apply (IH (i + 1) s h Hloop k phdr); [lia|done|done].
  - destruct (ivee_map_host_memory _ _ _ _ _ _ _) as [[o map] h1] eqn:Hmap.
    destruct o as [mr|]; [|done].
    destruct (sys_pread _ _ _ _ _) as [nbytes h2] eqn:Hread.
    case_bool_decide; [done|].
    pose proof (load_segments_grows _ _ _ _ _ _ _ _ _ Hloop)
      as (Hsame' & Hsub' & Hlive').
    destruct (decide (k = i)) as [->|Hne].
    + assert (phdr = ph) as -> by congruence.
      apply ivee_map_host_memory_region in Hmap
        as (Hfirst & Hlast & Hprot & Hin & _ & Hlive).
      exists mr. split_and!; [by apply Hsub'|done..|].
      apply Hlive'. revert Hread. unfold sys_pread.
      destruct (f_pread _ _ _); intros [= <- <-].
      * apply live_host_store. unfold live. rewrite Hlive. eauto.
      * unfold live. simpl. rewrite Hlive. eauto.
    + apply (IH (i + 1) (set_memory_map map s) h2 Hloop k phdr); [lia|done|done].
Qed.

(** X9.  [load_elf64] refuses with [-ENOTSUP] a file whose ELF header is
    read but is not of class ELFCLASS64, or neither an executable nor a
    shared object, or not for x86-64; nothing is mapped and the session
    and the host are as before. *)
Theorem load_elf64_rejects_foreign (s : ivee) (f : file) (h : host)
    (fd : Z) (ehdr : GElf_Ehdr) :
  elf_version f ≠ EV_NONE →
  f_open f = Ok fd → 0 ≤ fd →
  elf_begin f = true →
  elf_kind f = ELF_K_ELF →
  gelf_getehdr f = Some ehdr →
  gelf_getclass f ≠ ELFCLASS64
  ∨ (e_type ehdr ≠ ET_EXEC ∧ e_type ehdr ≠ ET_DYN)
  ∨ e_machine ehdr ≠ EM_X86_64 →
  load_elf64 s f h = (- ENOTSUP, s, h).
Proof.
  intros Hver Hopen Hfd Hbegin Hkind Hehdr Hbad.
  unfold load_elf64, sys_open.
  rewrite (proj2 (Z.eqb_neq _ _) Hver), Hopen, (proj2 (Z.ltb_ge _ _) Hfd).
  rewrite Hbegin. simpl.
  rewrite bool_decide_eq_false_2 by (by intros Hne). rewrite Hehdr.
  case_bool_decide as Hclass; [done|].
  destruct (decide (e_type ehdr = ET_EXEC)) as [Hexec|Hexec].
  - rewrite (bool_decide_eq_false_2 (e_type ehdr ≠ ET_EXEC)) by (by intros Hne).
    simpl. rewrite bool_decide_eq_true_2; [done|].
    destruct Hbad as [?|[[? _]|?]]; done.
  - rewrite (bool_decide_eq_true_2 (e_type ehdr ≠ ET_EXEC)) by done. simpl.
    case_bool_decide as Hdyn; [done|].
    rewrite bool_decide_eq_true_2; [done|].
    destruct Hbad as [?|[[_ ?]|?]]; done.
Qed.

(** X10.  [load_elf64] never touches the VM, the CPU image, [gpt_mr] or the
    termination flag, and never removes a region or ends a host mapping.
    The entry point changes only when the loop over the program headers
    ran to its end: then the status is 0 and the entry point is
    [e_entry]; on every other path it is what it was. *)
Theorem load_elf64_footprint (s s' : ivee) (f : file) (h h' : host) (res : Z) :
  load_elf64 s f h = (res, s', h') →
  same_but_map_entry s s'
  ∧ (∀ r, r ∈ memory_map s → r ∈ memory_map s')
  ∧ (∀ a, live a h → live a h')
  ∧ (entry_addr s' = entry_addr s
     ∨ res = 0 ∧ ∃ ehdr, gelf_getehdr f = Some ehdr
                         ∧ entry_addr s' = e_entry ehdr).
Proof.
  unfold load_elf64, sys_open.
  destruct (elf_version f =? EV_NONE);
    [intros [= <- <- <-]; split_and!; auto; done|].
  destruct (f_open f) as [fd|e]; simpl.
  2: { intros [= <- <- <-]. split_and!; auto; done. }
  destruct (fd <? 0); [intros [= <- <- <-]; split_and!; auto; done|].
  destruct (negb (elf_begin f)); [intros [= <- <- <-]; split_and!; auto; done|].
  case_bool_decide; [intros [= <- <- <-]; split_and!; auto; done|].
  destruct (gelf_getehdr f) as [ehdr|];
    [|intros [= <- <- <-]; split_and!; auto; done].
  case_bool_decide; [intros [= <- <- <-]; split_and!; auto; done|].
  destruct (_ && _); [intros [= <- <- <-]; split_and!; auto; done|].
  case_bool_decide; [intros [= <- <- <-]; split_and!; auto; done|].
  destruct (load_segments _ _ _ _ _ _) as [[x s1] h1] eqn:Hsegs.
  apply load_segments_grows in Hsegs as ((Hvm & Hcpu & Hentry & Hgpt & Hflag) & Hsub & Hlive).
  destruct x; intros [= <- <- <-]; split_and!; try done.
  - right. split; [done|]. by exists ehdr.
  - by left.
Qed.
End ElfLoader.

(** The ELF file read in full: its LOAD segment has its region at frame
    0x10, readable and executable. *)
Lemma load_segments_maps_every_load_witness :
  ∃ s' h' r,
    load_segments (H := sample_headers) elf_readable 1 0 0
                  (sample_session guest_rbp 0 0) (sample_created guest_rbp 0 0).2
    = (loop_done, s', h')
    ∧ r ∈ memory_map s'
    ∧ first_gfn r = 0x10
    ∧ prot r = 5.
Proof.
  pose (x := load_segments (H := sample_headers) elf_readable 1 0 0
               (sample_session guest_rbp 0 0) (sample_created guest_rbp 0 0).2).
  assert (x = (loop_done, x.1.2, x.2)) as Hx.
  { assert (x.1.1 = loop_done) as Hres by (by vm_compute).
    destruct x as [[? ?] ?]. simpl in *. by subst. }
  destruct (load_segments_maps_every_load (H := sample_headers) _ _ _ _ _ _ _ _ Hx)
    as (_ & _ & Hload).
  destruct (Hload 0 {| p_type := PT_LOAD; p_flags := Z.lor PF_R PF_X;
                       p_offset := 0x1000; p_vaddr := 0x10000;
                       p_filesz := 0x1000; p_memsz := 0x1000 |})
    as (r & Hin & Hfirst & _ & Hprot & _); [lia|reflexivity|reflexivity|].
  by exists x.1.2, x.2, r.
Defined.

(** An ELF64 executable for the 80386 is refused. *)
Lemma load_elf64_rejects_foreign_witness :
  load_elf64 (H := sample_headers) (sample_session guest_rbp 0 0) elf_i386
             (sample_created guest_rbp 0 0).2
  = (- ENOTSUP, sample_session guest_rbp 0 0, (sample_created guest_rbp 0 0).2).
Proof.
  apply (load_elf64_rejects_foreign (H := sample_headers) _ elf_i386 _ 3
           {| e_type := ET_EXEC; e_machine := 3; e_entry := 0x10000; e_phnum := 1 |});
    try done.
  right. right. done.
Defined.

(** The ELF file read in full: the entry point becomes [e_entry]. *)
Lemma load_elf64_footprint_witness :
  ∃ s' h',
    load_elf64 (H := sample_headers) (sample_session guest_rbp 0 0) elf_readable
               (sample_created guest_rbp 0 0).2 = (0, s', h')
    ∧ vm s' = vm (sample_session guest_rbp 0 0)
    ∧ entry_addr s' = 0x10000.
Proof.
  pose (x := load_elf64 (H := sample_headers) (sample_session guest_rbp 0 0)
               elf_readable (sample_created guest_rbp 0 0).2).
  assert (x = (0, x.1.2, x.2)) as Hx.
  { assert (x.1.1 = 0) as Hres by (by vm_compute).
    destruct x as [[? ?] ?]. simpl in *. by subst. }
  destruct (load_elf64_footprint (H := sample_headers) _ _ _ _ _ _ Hx)
    as ((Hvm & _) & _ & _ & _).
  exists x.1.2, x.2. split_and!; [done|done|by vm_compute].
Defined.

Section ElfNoLoad.
Context `{headers} `{kvm_driver}.

Lemma load_segments_skips (f : file) (n : nat) (i res : Z) (s : ivee) (h : host) :
  (∀ k, i ≤ k < i + Z.of_nat n →
        ∃ phdr, gelf_getphdr f k = Some phdr ∧ p_type phdr ≠ PT_LOAD) →
  load_segments f n i res s h = (loop_done, s, h).
Proof.
  revert i. induction n as [|n IH]; intros i Hskip; [done|]. simpl.
  destruct (Hskip i) as (phdr & -> & Htype); [lia|].
  rewrite bool_decide_eq_true_2 by done.
  apply IH. intros k Hk. apply Hskip. lia.
Qed.

(** X11.  An ELF64 file for x86-64 none of whose program headers is of
    type LOAD is loaded with status 0 and nothing mapped: the session
    changes in its entry point only, which becomes [e_entry], and the host
    is as before. *)
Theorem load_elf64_without_load_headers (s : ivee) (f : file) (h : host)
    (fd : Z) (ehdr : GElf_Ehdr) :
  elf_version f ≠ EV_NONE →
  f_open f = Ok fd → 0 ≤ fd →
  elf_begin f = true →
  elf_kind f = ELF_K_ELF →
  gelf_getehdr f = Some ehdr →
  gelf_getclass f = ELFCLASS64 →
  e_type ehdr = ET_EXEC ∨ e_type ehdr = ET_DYN →
  e_machine ehdr = EM_X86_64 →
  (∀ k, 0 ≤ k < e_phnum ehdr →
        ∃ phdr, gelf_getphdr f k = Some phdr ∧ p_type phdr ≠ PT_LOAD) →
  load_elf64 s f h = (0, set_entry_addr (e_entry ehdr) s, h).
Proof.
  intros Hver Hopen Hfd Hbegin Hkind Hehdr Hclass Htype Hmach Hskip.
  unfold load_elf64, sys_open.
  rewrite (proj2 (Z.eqb_neq _ _) Hver), Hopen, (proj2 (Z.ltb_ge _ _) Hfd).
  rewrite Hbegin. simpl.
  rewrite bool_decide_eq_false_2 by (by intros Hne). rewrite Hehdr.
  rewrite bool_decide_eq_false_2 by (by intros Hne).
  assert (bool_decide (e_type ehdr ≠ ET_EXEC) && bool_decide (e_type ehdr ≠ ET_DYN)
          = false) as ->.
  { destruct Htype as [-> | ->]; [done|].
    by rewrite (bool_decide_eq_false_2 (ET_DYN ≠ ET_DYN)), andb_false_r
      by (by intros Hne). }
  rewrite bool_decide_eq_false_2 by (by intros Hne).
  rewrite load_segments_skips; [done|].
  intros k Hk. apply Hskip. lia.
Qed.
End ElfNoLoad.

(** A shared object with a NOTE and a GNU_STACK header only. *)
Lemma load_elf64_without_load_headers_witness :
  load_elf64 (H := sample_headers) (sample_session guest_rbp 0 0) elf_no_load
             (sample_created guest_rbp 0 0).2
  = (0, set_entry_addr 0x1040 (sample_session guest_rbp 0 0),
     (sample_created guest_rbp 0 0).2).
Proof.
  apply (load_elf64_without_load_headers (H := sample_headers) _ elf_no_load _ 3
           {| e_type := ET_DYN; e_machine := EM_X86_64; e_entry := 0x1040;
              e_phnum := 2 |}); try done.
  - by right.
  - simpl. intros k Hk.
    assert (k = 0 ∨ k = 1) as [-> | ->] by lia; eexists; split; done.
Defined.

(** ** More on the call *)

Section CallMore.
Context `{headers} `{kvm_driver}.


(** X13.  [ivee_call] on a session and a register block always returns
    after at most one run of the guest, and whatever the outcome it
    leaves the memory map, the entry point and [gpt_mr] of the session as
    they were. *)
Theorem call_keeps_session (fuel : nat) (s : ivee) (st : ivee_arch_state) :
  ∃ res s' st',
    ivee_call (S fuel) (Some s) (Some st) = Some (res, Some s', Some st')
    ∧ memory_map s' = memory_map s
    ∧ entry_addr s' = entry_addr s
    ∧ gpt_mr s' = gpt_mr s.
Proof.
  unfold ivee_call, load_vcpu_state.
  destruct (ivee_kvm_load_vcpu_state _ _) as [r v].
  case_bool_decide; [by eexists _, _, _|].
  match goal with |- context [run_loop _ ?s0] => set (s1 := s0) end.
  destruct (ivee_kvm_run (vm s1)) as [[r' e] v'] eqn:Hrun.
  rewrite (run_loop_step fuel s1 r' e v' Hrun).
  case_bool_decide; [by eexists _, _, _|].
  destruct (decide (exit_request e)); [|by eexists _, _, _].
  unfold store_vcpu_state.
  destruct (ivee_kvm_store_vcpu_state _ _) as [rs c].
  case_bool_decide; by eexists _, _, _.
Qed.

(** X14.  A call starts by clearing [should_terminate]: once the
    registers are loaded, its whole result is the same whether the flag
    was set or clear before, so a session whose last call ended can be
    called again. *)
Theorem call_clears_flag (fuel : nat) (b : bool) (s : ivee)
    (st : ivee_arch_state) :
  (load_vcpu_state s st).1 = 0 →
  ivee_call fuel (Some (set_should_terminate b s)) (Some st)
  = ivee_call fuel (Some s) (Some st).
Proof.
  unfold ivee_call, load_vcpu_state. simpl.
  destruct (ivee_kvm_load_vcpu_state _ _) as [r v]. simpl. intros ->.
  by rewrite bool_decide_eq_false_2 by (by intros Hne).
Qed.

(** X15.  When the driver refuses the registers, [ivee_call] returns its
    status without running the guest, whatever the fuel: the caller's
    block and the termination flag are as before, while the session's
    image already holds the caller's registers and the entry point. *)
Theorem call_load_failure (fuel : nat) (s s1 : ivee) (st : ivee_arch_state)
    (res : Z) :
  load_vcpu_state s st = (res, s1) →
  res ≠ 0 →
  ivee_call fuel (Some s) (Some st) = Some (res, Some s1, Some st)
  ∧ should_terminate s1 = should_terminate s
  ∧ gprs_loaded (x86_cpu s1) st
  ∧ rip (x86_cpu s1) = entry_addr s.
Proof.
  intros Hload Hres. unfold ivee_call. rewrite Hload.
  rewrite bool_decide_eq_true_2 by done.
  revert Hload. unfold load_vcpu_state.
  destruct (ivee_kvm_load_vcpu_state _ _) as [r v].
  intros [= <- <-]. by repeat split.
Qed.

(** X16.  Round trip through an idle guest: if the guest makes the exit
    request and the driver reads back the image that was committed, the
    call returns 0 and the caller's block is exactly what it was. *)
Theorem call_round_trip (fuel : nat) (s s1 : ivee) (st : ivee_arch_state)
    (e : ivee_exit) (v : option ivee_kvm_vm) :
  load_vcpu_state s st = (0, s1) →
  ivee_kvm_run (vm s1) = (0, e, v) →
  exit_request e →
  ivee_kvm_store_vcpu_state v (x86_cpu s1) = (0, x86_cpu s1) →
  ∃ s', ivee_call (S fuel) (Some s) (Some st) = Some (0, Some s', Some st).
Proof.
  intros Hload Hrun Hreq Hstore. unfold ivee_call. rewrite Hload.
  rewrite bool_decide_eq_false_2 by (by intros Hne).
  rewrite (run_loop_step fuel _ 0 e v) by done.
  rewrite bool_decide_eq_false_2 by (by intros Hne).
  rewrite decide_True by done.
  unfold store_vcpu_state. simpl. rewrite Hstore.
  rewrite bool_decide_eq_false_2 by (by intros Hne).
  eexists. do 2 f_equal.
  revert Hload. unfold load_vcpu_state.
  destruct (ivee_kvm_load_vcpu_state _ _) as [r v0].
  intros [= _ <-]. by destruct st.
Qed.
End CallMore.


(** A second call of the loaded flat binary, the flag still set. *)
Lemma call_clears_flag_witness :
  ivee_call (H := sample_headers) 1
            (Some (set_should_terminate true (sample_loaded guest_rbp 0 0)))
            (Some zero_arch_state)
  = ivee_call (H := sample_headers) 1 (Some (sample_loaded guest_rbp 0 0))
              (Some zero_arch_state).
Proof.
  apply (call_clears_flag (H := sample_headers) 1 true
           (sample_loaded guest_rbp 0 0) zero_arch_state).
  by vm_compute.
Defined.

(** The driver refuses the registers with [-EIO]. *)
Lemma call_load_failure_witness :
  ∃ s1,
    ivee_call (H := sample_headers) 0 (Some (refused_session (- EIO)))
              (Some sample_arch_state)
    = Some (- EIO, Some s1, Some sample_arch_state)
    ∧ rip (x86_cpu s1) = 0.
Proof.
  pose (x := load_vcpu_state (refused_session (- EIO)) sample_arch_state).
  destruct (call_load_failure (H := sample_headers) 0 (refused_session (- EIO))
              x.2 sample_arch_state (- EIO)) as (Hcall & _ & _ & Hrip).
  - by vm_compute.
  - done.
  - exists x.2. split; [done|]. by rewrite Hrip.
Defined.

(** The idle guest [out 0x10, al] hands every register back. *)
Lemma call_round_trip_witness :
  ∃ s',
    ivee_call (H := sample_headers) 1 (Some (sample_loaded guest_exit 0 0))
              (Some sample_arch_state)
    = Some (0, Some s', Some sample_arch_state).
Proof.
  pose (s := sample_loaded guest_exit 0 0).
  pose (x := load_vcpu_state s sample_arch_state).
  pose (y := ivee_kvm_run (vm x.2)).
  apply (call_round_trip (H := sample_headers) 0 s x.2 sample_arch_state
           y.1.2 y.2).
  - by vm_compute.
  - by vm_compute.
  - by vm_compute.
  - by vm_compute.
Defined.

(** ** Creating a session *)

Section CreateMore.
Context `{headers} `{kvm_driver}.

Lemma ivee_create_success (caps : Z) (out : option ivee) (h h' : host)
    (o : option (option ivee)) :
  ivee_create caps (Some out) h = (0, o, h') →
  ivee_init_kvm = 0
  ∧ ivee_init_memory_map = 0
  ∧ ∃ v, kvm_new_vm = Some v
         ∧ o = Some (Some (set_vm (Some v) zero_ivee))
         ∧ live_sessions h' = S (live_sessions h)
         ∧ live_vms h' = S (live_vms h)
         ∧ mappings h' = mappings h.
Proof.
  unfold ivee_create, ivee_zalloc, ivee_create_kvm_vm, next_grant.
  case_bool_decide; [by intros [=]|].
  destruct (grants h) as [|[] rest]; simpl; try by intros [=].
  all: case_bool_decide as Hkvm; [by intros [= ? ? ?]|].
  all: destruct kvm_new_vm as [v|]; simpl; [|by intros [=]].
  all: case_bool_decide as Hmm; [by intros [= ? ? ?]|].
  all: intros [= <- <-].
  all: assert (ivee_init_kvm = 0) by (destruct (decide (ivee_init_kvm = 0)); done).
  all: assert (ivee_init_memory_map = 0)
         by (destruct (decide (ivee_init_memory_map = 0)); done).
  all: split_and!; [done..|]; by exists v.
Qed.


(** X18.  A successful [ivee_create] hands out an empty session: the VM
    handle of the driver, no region, a zeroed CPU image, entry point 0,
    no page-table region and the termination flag clear.  One session
    block and one VM handle are then in use, no host mapping was made,
    and both the driver's initialisation and that of the memory map had
    status 0. *)
Theorem create_yields_empty_session (caps : Z) (out : option ivee) (h h' : host)
    (o : option (option ivee)) :
  ivee_create caps (Some out) h = (0, o, h') →
  ivee_init_kvm = 0
  ∧ ivee_init_memory_map = 0
  ∧ ∃ s, o = Some (Some s)
         ∧ vm s = kvm_new_vm ∧ is_Some (vm s)
         ∧ memory_map s = []
         ∧ x86_cpu s = zero_cpu
         ∧ entry_addr s = 0
         ∧ gpt_mr s = None
         ∧ should_terminate s = false
         ∧ live_sessions h' = S (live_sessions h)
         ∧ live_vms h' = S (live_vms h)
         ∧ mappings h' = mappings h.
Proof.
  intros Hcreate.
  apply ivee_create_success in Hcreate
    as (Hkvm & Hmm & v & Hv & -> & Hs & Hvms & Hmaps).
  split_and!; [done..|]. eexists. split; [done|]. simpl.
  rewrite Hv. split_and!; eauto.
Qed.

(** X19.  Creating a session and destroying it at once gives everything
    back: as many session blocks and VM handles are in use afterwards as
    before, and the host mappings are the same. *)
Theorem create_destroy_round_trip (caps : Z) (out : option ivee) (h h' : host)
    (s : ivee) :
  ivee_create caps (Some out) h = (0, Some (Some s), h') →
  live_sessions (ivee_destroy (Some s) h') = live_sessions h
  ∧ live_vms (ivee_destroy (Some s) h') = live_vms h
  ∧ mappings (ivee_destroy (Some s) h') = mappings h.
Proof.
  intros Hcreate.
  apply ivee_create_success in Hcreate
    as (_ & _ & v & _ & [= ->] & Hs & Hvms & Hmaps).
  simpl. rewrite Hs, Hvms. done.
Qed.

(** X20.  After a successful [ivee_load_executable] the CPU image is that
    of a fresh boot, whatever the session's image held before: all
    general-purpose registers and rip are 0; CS has selector 0x08 and
    DS, SS, ES, FS and GS share one descriptor with selector 0x10, all
    with base 0, limit 0xFFFFFFFF and DPL 0; TR and LDT have selector 0
    and limit 0. *)
Theorem boot_segments_after_load (s s' : ivee) (f : file)
    (format : ivee_executable_format_t) (h h' : host) :
  ivee_load_executable (Some s) (Some f) format h = (0, Some s', h') →
  (∀ c0, x86_cpu s' = init_x86_cpu c0)
  ∧ gprs_loaded (x86_cpu s')
      {| a_rax := 0; a_rbx := 0; a_rcx := 0; a_rdx := 0; a_rsi := 0;
         a_rdi := 0; a_rbp := 0; a_r8 := 0; a_r9 := 0; a_r10 := 0;
         a_r11 := 0; a_r12 := 0; a_r13 := 0; a_r14 := 0; a_r15 := 0 |}
  ∧ rip (x86_cpu s') = 0
  ∧ seg_selector (cs (x86_cpu s')) = 0x8
  ∧ seg_selector (ds (x86_cpu s')) = 0x10
  ∧ ds (x86_cpu s') = ss (x86_cpu s')
  ∧ ds (x86_cpu s') = es (x86_cpu s')
  ∧ ds (x86_cpu s') = fs (x86_cpu s')
  ∧ ds (x86_cpu s') = gs (x86_cpu s')
  ∧ seg_base (cs (x86_cpu s')) = 0 ∧ seg_base (ds (x86_cpu s')) = 0
  ∧ seg_limit (cs (x86_cpu s')) = 0xFFFFFFFF
  ∧ seg_limit (ds (x86_cpu s')) = 0xFFFFFFFF
  ∧ seg_dpl (cs (x86_cpu s')) = 0 ∧ seg_dpl (ds (x86_cpu s')) = 0
  ∧ seg_selector (tr (x86_cpu s')) = 0 ∧ seg_limit (tr (x86_cpu s')) = 0
  ∧ seg_selector (ldt (x86_cpu s')) = 0 ∧ seg_limit (ldt (x86_cpu s')) = 0.
Proof.
  intros Hload.
  apply ivee_load_executable_ok in Hload as (s1 & h1 & s2 & v & _ & ->).
  simpl. by repeat split.
Qed.
End CreateMore.


(** The session made in a fresh process. *)
Lemma create_yields_empty_session_witness :
  ∃ s,
    (sample_created guest_rbp 0 0).1.2 = Some (Some s)
    ∧ memory_map s = []
    ∧ live_vms (sample_created guest_rbp 0 0).2 = 1%nat.
Proof.
  pose (x := sample_created guest_rbp 0 0).
  destruct (create_yields_empty_session (H0 := sample_driver guest_rbp 0 0) 0 None sample_host
              x.2 x.1.2) as (_ & _ & s & Hs & _ & _ & Hmap & _ & _ & _ & _ & _ & Hvms & _).
  - by vm_compute.
  - exists s. split_and!; [done|done|exact Hvms].
Defined.

(** Destroying that session at once. *)
Lemma create_destroy_round_trip_witness :
  live_sessions (ivee_destroy
                   (Some (sample_session guest_rbp 0 0))
                   (sample_created guest_rbp 0 0).2) = 0%nat
  ∧ live_vms (ivee_destroy
                (Some (sample_session guest_rbp 0 0))
                (sample_created guest_rbp 0 0).2) = 0%nat.
Proof.
  destruct (create_destroy_round_trip (H0 := sample_driver guest_rbp 0 0) 0 None sample_host
              (sample_created guest_rbp 0 0).2 (sample_session guest_rbp 0 0))
    as (Hs & Hvms & _).
  - by vm_compute.
  - by rewrite Hs, Hvms.
Defined.

(** The boot image of the loaded flat binary. *)
Lemma boot_segments_after_load_witness :
  seg_selector (cs (x86_cpu (sample_loaded guest_rbp 0 0))) = 0x8
  ∧ seg_limit (ds (x86_cpu (sample_loaded guest_rbp 0 0))) = 0xFFFFFFFF.
Proof.
  destruct (boot_segments_after_load (H := sample_headers)
              (sample_session guest_rbp 0 0) (sample_loaded guest_rbp 0 0)
              flat_file IVEE_EXEC_BIN (sample_created guest_rbp 0 0).2
              (sample_loaded_host guest_rbp 0 0))
    as (_ & _ & _ & Hcs & _ & _ & _ & _ & _ & _ & _ & _ & Hlim & _).
  - apply sample_load_flat.
  - by split.
Defined.

(** ** The page-table region and the window of the low 1 GiB *)

Lemma ivee_map_host_memory_apart (map map' : ivee_memory_map) (gpa size : Z)
    (fd : option words) (ro : bool) (p : Z) (h h' : host)
    (r : ivee_guest_memory_region) :
  ivee_map_host_memory map gpa size fd ro p h = (Some r, map', h') →
  existsb (overlaps (first_gfn r) (last_gfn r)) map = false
  ∧ map' = insert_sorted r map.
Proof.
  unfold ivee_map_host_memory. destruct (negb _); [done|].
  destruct (existsb _ _) eqn:Hno; [done|].
  destruct (host_mmap _ _ _) as [[a|] h1]; [|done].
  by intros [= <- <- <-].
Qed.

Lemma ivee_map_host_memory_overlap (map : ivee_memory_map) (gpa size : Z)
    (fd : option words) (ro : bool) (p : Z) (h : host)
    (x : ivee_guest_memory_region) :
  x ∈ map →
  overlaps (Z.shiftr gpa X86_PAGE_SHIFT)
           (Z.shiftr (gpa + page_round_up size - 1) X86_PAGE_SHIFT) x = true →
  ivee_map_host_memory map gpa size fd ro p h = (None, map, h).
Proof.
  intros Hx Hov. unfold ivee_map_host_memory. destruct (negb _); [done|].
  rewrite (proj2 (existsb_exists _ _)); [done|].
  exists x. split; [by apply list_elem_of_In|done].
Qed.

Section Window.
Context `{headers} `{kvm_driver}.

(** X21.  The slot of a frame is taken from the low 18 bits of its number:
    frame numbers that differ by a multiple of 2^18 (1 GiB of address
    space) share one slot, and every slot lies in the 512 table pages. *)
Theorem pte_slot_wraps (gfn k : Z) :
  pte_slot (gfn + k * IVEE_GUEST_PAGES_COUNT) = pte_slot gfn
  ∧ pte_slot gfn = pte_pages_base + gfn mod 2 ^ 18
  ∧ pte_pages_base ≤ pte_slot gfn < pte_pages_base + 512 * X86_PTES_PER_PAGE.
Proof.
  rewrite !pte_slot_mod, Z.mod_add by done.
  split_and!; [done..| |];
    pose proof (Z.mod_pos_bound gfn IVEE_GUEST_PAGES_COUNT);
    table_offsets; lia.
Qed.

(** X22.  When a region of the memory map reaches into the last 515
    frames of the low 1 GiB, the page-table region cannot be mapped:
    [init_guest_page_table] returns [-ENOMEM], leaves [gpt_mr] null and
    changes neither the memory map nor the host. *)
Theorem page_table_region_taken (s : ivee) (h : host)
    (x : ivee_guest_memory_region) :
  x ∈ memory_map s →
  IVEE_GUEST_PAGES_COUNT - 515 ≤ last_gfn x →
  first_gfn x ≤ IVEE_GUEST_PAGES_COUNT - 1 →
  init_guest_page_table s h
  = (- ENOMEM, set_gpt_mr None (set_memory_map (memory_map s) s), h).
Proof.
  intros Hx Hlast Hfirst. unfold init_guest_page_table.
  rewrite (ivee_map_host_memory_overlap _ _ _ _ _ _ _ x); [done|done|].
  unfold overlaps. change IVEE_GUEST_PAGES_COUNT with 262144 in *.
  apply andb_true_intro. split; [apply Z.leb_le|apply Z.leb_le].
  - transitivity 261629; [by vm_compute|lia].
  - transitivity 262143; [lia|by vm_compute].
Qed.

Lemma load_bin_map (s s' : ivee) (f : file) (h h' : host) :
  load_bin s f h = (0, s', h') →
  ∃ r, memory_map s' = insert_sorted r (memory_map s)
       ∧ first_gfn r = 0x400 ∧ 0x400 ≤ last_gfn r.
Proof.
  unfold load_bin, sys_stat, sys_open.
  destruct (f_stat f) as [size|e]; simpl; [|by intros [=]].
  destruct (Z.eqb_spec (wrap64 size) 0) as [|Hsize]; [by intros [=]|].
  destruct (f_open f) as [fd|e]; [|by intros [=]].
  destruct (fd <? 0) eqn:Hfd; [intros [= -> _ _]; lia|].
  destruct (ivee_map_host_memory _ _ _ _ _ _ _) as [[[r|] map] h1] eqn:Hmap;
    [|by intros [=]].
  intros [= <- <-]. pose proof Hmap as Hreg.
  apply ivee_map_host_memory_apart in Hmap as [_ ->].
  apply ivee_map_host_memory_region in Hreg as (Hfirst & Hlast & _).
  exists r. split_and!; [done..|].
  assert (0 < wrap64 size) as Hpos.
  { unfold wrap64 in *. pose proof (Z.mod_pos_bound size (2 ^ 64)). lia. }
  simpl in Hlast. rewrite Hlast, flat_image_last_frame by done.
  assert (1 ≤ (wrap64 size + 4095) / 4096)
    by (apply Z.div_le_lower_bound; lia).
  lia.
Qed.

(** X23.  A flat binary loaded into a session without regions yields a
    memory map of two regions, the image and the page tables, which keeps
    the invariants the page-table builder relies on: both lie in the low
    1 GiB and they share no frame. *)
Theorem flat_load_map_ok (s s' : ivee) (f : file) (h h' : host) :
  memory_map s = [] →
  ivee_load_executable (Some s) (Some f) IVEE_EXEC_BIN h = (0, Some s', h') →
  memory_map_ok (memory_map s') = true
  ∧ ∃ r g, memory_map s' = [r; g]
           ∧ first_gfn r = 0x400
           ∧ last_gfn r < IVEE_GUEST_PAGES_COUNT - 515
           ∧ gpt_mr s' = Some g.
Proof.
  intros Hempty Hload.
  apply ivee_load_executable_steps in Hload
    as (s1 & h1 & s2 & v & _ & Hbin & Hpt & _ & ->).
  apply load_bin_map in Hbin as (r & Hmap1 & Hfirst & Hlast).
  rewrite Hempty in Hmap1. simpl in Hmap1.
  revert Hpt. unfold init_guest_page_table.
  destruct (ivee_map_host_memory _ _ _ _ _ _ _) as [[[g|] map] h2] eqn:Hmap;
    [|done].
  intros [= <- <-]. pose proof Hmap as Hreg.
  apply ivee_map_host_memory_apart in Hmap as [Hno ->].
  apply ivee_map_host_memory_region in Hreg as (Hgf & Hgl & _).
  change (Z.shiftr IVEE_PML4_BASE_GPA X86_PAGE_SHIFT) with 261629 in Hgf.
  change (Z.shiftr (IVEE_PML4_BASE_GPA + page_round_up IVEE_PAGE_TABLE_SIZE - 1)
                   X86_PAGE_SHIFT) with 262143 in Hgl.
  rewrite Hmap1 in *. simpl in Hno. rewrite orb_false_r in Hno.
  unfold overlaps in Hno. rewrite Hgf, Hgl, Hfirst in Hno.
  apply andb_false_iff in Hno as [Hno|Hno];
    [apply Z.leb_gt in Hno|apply Z.leb_gt in Hno; lia].
  simpl. rewrite Hgf, Hfirst. simpl.
  split.
  - unfold memory_map_ok, region_in_window, overlaps. simpl.
    rewrite Hgf, Hgl, Hfirst. change IVEE_GUEST_PAGES_COUNT with 262144.
    repeat (apply andb_true_intro; split); try done.
    + apply Z.ltb_lt. lia.
    + apply negb_true_iff, andb_false_iff. right. apply Z.leb_gt. lia.
  - exists r, g. by split_and!.
Qed.
End Window.

(** A region that ends at the last frame of the low 1 GiB. *)
Lemma page_table_region_taken_witness :
  (init_guest_page_table (H := sample_headers)
     (set_memory_map
        [ {| first_gfn := 0x3FFFF; last_gfn := 0x3FFFF; hva := 0x7f0000000000;
             prot := 5 |} ]
        (sample_session guest_rbp 0 0))
     (sample_created guest_rbp 0 0).2).1.1 = - ENOMEM.
Proof.
  rewrite (page_table_region_taken (H := sample_headers) _ _
             {| first_gfn := 0x3FFFF; last_gfn := 0x3FFFF; hva := 0x7f0000000000;
                prot := 5 |}); [done| | |].
  - simpl. apply elem_of_cons. by left.
  - by vm_compute.
  - by vm_compute.
Defined.

(** The loaded flat binary keeps the invariants. *)
Lemma flat_load_map_ok_witness :
  memory_map_ok (memory_map (sample_loaded guest_rbp 0 0)) = true.
Proof.
  destruct (flat_load_map_ok (H := sample_headers)
              (sample_session guest_rbp 0 0) (sample_loaded guest_rbp 0 0)
              flat_file (sample_created guest_rbp 0 0).2
              (sample_loaded_host guest_rbp 0 0)) as [Hok _].
  - reflexivity.
  - apply sample_load_flat.
  - exact Hok.
Defined.
